(** * Black-Scholes and Monte Carlo option pricer: a shallow embedding

    The development follows [pricer_project/models/black_scholes.py],
    [pricer_project/models/monte_carlo.py] and
    [pricer_project/interface/stats_analysis.py].

    Python floats are idealised as real numbers: rounding, overflow and the
    special values produced by ordinary float arithmetic are outside the
    model.  What is kept of the run-time behaviour is
    - the exceptions that the [math] functions and the float division raise
      on arguments outside their domain,
    - NumPy's convention that the statistics of an empty array are [nan],
    - the process-wide generator behind [np.random.seed] and
      [np.random.randn]. *)

From Stdlib Require Import Reals Lra Lia ZArith List String Bool.
From Stdlib Require Import Arith.Factorial.
Import ListNotations.

#[local] Open Scope R_scope.

(** ** The error function

    [math.erf] is the error function; it is defined here by its Maclaurin
    series [erf x = 2/sqrt(pi) * sum_n (-1)^n x^(2n+1) / (n! (2n+1))], in the
    way the Standard Library defines [sin] and [cos]. *)

Module Erf.

Definition erf_n (n : nat) : R := (-1) ^ n / (INR (fact n) * INR (2 * n + 1)).

Definition erf_in (x l : R) : Prop :=
  infinite_sum (fun i : nat => erf_n i * x ^ i) l.

Lemma erf_n_den_pos (n : nat) : 0 < INR (fact n) * INR (2 * n + 1).
Proof.
  apply Rmult_lt_0_compat.
  - apply INR_fact_lt_0.
  - apply lt_0_INR. lia.
Qed.

Lemma erf_n_neq_0 (n : nat) : erf_n n <> 0.
Proof.
  unfold erf_n, Rdiv. apply Rmult_integral_contrapositive_currified.
  - apply pow_nonzero. lra.
  - apply Rinv_neq_0_compat. apply Rgt_not_eq, erf_n_den_pos.
Qed.

Lemma erf_n_ratio (n : nat) :
  erf_n (S n) / erf_n n = - (INR (2 * n + 1) / (INR (S n) * INR (2 * n + 3))).
Proof.
  unfold erf_n.
  replace (2 * S n + 1)%nat with (2 * n + 3)%nat by lia.
  rewrite fact_simpl, mult_INR. simpl pow.
  assert (H1 : INR (fact n) <> 0) by apply INR_fact_neq_0.
  assert (H2 : INR (S n) <> 0) by (apply not_0_INR; lia).
  assert (H3 : INR (2 * n + 1) <> 0) by (apply not_0_INR; lia).
  assert (H4 : INR (2 * n + 3) <> 0) by (apply not_0_INR; lia).
  assert (H5 : (-1) ^ n <> 0) by (apply pow_nonzero; lra).
  field. repeat split; assumption.
Qed.

Lemma erf_n_ratio_bound (n : nat) : Rabs (erf_n (S n) / erf_n n) <= / INR (S n).
Proof.
  rewrite erf_n_ratio, Rabs_Ropp.
  assert (Hs : 0 < INR (S n)) by (apply lt_0_INR; lia).
  assert (Ha : 0 < INR (2 * n + 1)) by (apply lt_0_INR; lia).
  assert (Hb : INR (2 * n + 1) <= INR (2 * n + 3)) by (apply le_INR; lia).
  assert (Hc : 0 < INR (2 * n + 3)) by lra.
  rewrite Rabs_pos_eq.
  - replace (INR (2 * n + 1) / (INR (S n) * INR (2 * n + 3)))
      with (/ INR (S n) * (INR (2 * n + 1) / INR (2 * n + 3))) by (field; lra).
    rewrite <- (Rmult_1_r (/ INR (S n))) at 2.
    apply Rmult_le_compat_l.
    + left. now apply Rinv_0_lt_compat.
    + apply (Rmult_le_reg_r (INR (2 * n + 3))); [assumption |].
      unfold Rdiv. rewrite Rmult_assoc, Rinv_l by lra. lra.
  - left. apply Rdiv_lt_0_compat; [assumption |].
    now apply Rmult_lt_0_compat.
Qed.

Lemma Alembert_erf : Un_cv (fun n : nat => Rabs (erf_n (S n) / erf_n n)) 0.
Proof.
  intros eps Heps.
  destruct (archimed_cor1 eps Heps) as [N [HN HNpos]].
  exists N. intros n Hn. unfold Rdist.
  rewrite Rminus_0_r, Rabs_Rabsolu.
  apply Rle_lt_trans with (/ INR (S n)); [apply erf_n_ratio_bound |].
  apply Rle_lt_trans with (/ INR N); [| assumption].
  apply Rinv_le_contravar.
  - apply lt_0_INR. lia.
  - apply le_INR. lia.
Qed.

Lemma exist_erf (x : R) : { l : R | erf_in x l }.
Proof.
  exact (Alembert_C3 erf_n x erf_n_neq_0 Alembert_erf).
Defined.

Definition erf (x : R) : R :=
  2 / sqrt PI * (x * proj1_sig (exist_erf (Rsqr x))).

End Erf.

(** ** Python run-time behaviour kept by the model *)

(** The exceptions.  [ValueError] and [ZeroDivisionError] are the built-in
    classes raised by [math.log], [math.sqrt], the float division and
    [np.random]; the other two are the classes named by the specification's
    error taxonomy, and no function below ever raises them. *)
Inductive exn : Set :=
  | ValueError
  | ZeroDivisionError
  | InvalidParameterError
  | UnsupportedOptionKindError.

Inductive result (A : Type) : Type :=
  | Ok (a : A)
  | Raise (e : exn).

Arguments Ok {A} a.
Arguments Raise {A} e.

Definition bind {A B : Type} (c : result A) (k : A -> result B) : result B :=
  match c with
  | Ok a => k a
  | Raise e => Raise e
  end.

Declare Scope py_scope.
Delimit Scope py_scope with py.
Notation "x <- c ;; k" := (bind c (fun x => k))
  (at level 61, c at next level, right associativity) : py_scope.
#[local] Open Scope py_scope.

Definition succeeds {A : Type} (c : result A) : Prop := exists a, c = Ok a.

(** [a / b] on floats. *)
Definition py_div (a b : R) : result R :=
  if Req_dec_T b 0 then Raise ZeroDivisionError else Ok (a / b).

(** [math.log]. *)
Definition py_log (x : R) : result R :=
  if Rlt_dec 0 x then Ok (ln x) else Raise ValueError.

(** [math.sqrt]. *)
Definition py_sqrt (x : R) : result R :=
  if Rle_dec 0 x then Ok (sqrt x) else Raise ValueError.

(** ** [models/black_scholes.py] *)

Module black_scholes.

Import Erf.

Record OptionParams : Set := {
  S : R;      (* spot price *)
  K : R;      (* strike *)
  r : R;      (* risk-free rate *)
  q : R;      (* dividend yield *)
  sigma : R;  (* volatility *)
  T : R       (* maturity *)
}.

Definition std_norm_cdf (x : R) : R :=
  0.5 * (1.0 + erf (x / sqrt 2.0)).

Definition std_norm_pdf (x : R) : R :=
  (1 / sqrt (2 * PI)) * exp (-0.5 * x ^ 2).

Definition d1 (p : OptionParams) : result R :=
  x <- py_div p.(S) p.(K) ;;
  l <- py_log x ;;
  s <- py_sqrt p.(T) ;;
  py_div (l + (p.(r) - p.(q) + 0.5 * p.(sigma) ^ 2) * p.(T)) (p.(sigma) * s).

Definition d2 (p : OptionParams) (d1_val : option R) : result R :=
  d1_val <- match d1_val with
            | None => d1 p
            | Some v => Ok v
            end ;;
  s <- py_sqrt p.(T) ;;
  Ok (d1_val - p.(sigma) * s).

Definition disc (rate T : R) : R := exp (- rate * T).

Definition call_price (p : OptionParams) : result R :=
  d1v <- d1 p ;;
  d2v <- d2 p (Some d1v) ;;
  Ok (p.(S) * exp (- p.(q) * p.(T)) * std_norm_cdf d1v
      - p.(K) * exp (- p.(r) * p.(T)) * std_norm_cdf d2v).

Definition put_price (p : OptionParams) : result R :=
  d1v <- d1 p ;;
  d2v <- d2 p (Some d1v) ;;
  Ok (p.(K) * exp (- p.(r) * p.(T)) * std_norm_cdf (- d2v)
      - p.(S) * exp (- p.(q) * p.(T)) * std_norm_cdf (- d1v)).

Definition black_scholes_price (p : OptionParams) (kind : string) : result R :=
  if (kind =? "call")%string then call_price p else put_price p.

Definition delta (p : OptionParams) (kind : string) : result R :=
  d1v <- d1 p ;;
  if (kind =? "call")%string
  then Ok (exp (- p.(q) * p.(T)) * std_norm_cdf d1v)
  else Ok (- exp (- p.(q) * p.(T)) * std_norm_cdf (- d1v)).

Definition gamma (p : OptionParams) : result R :=
  d1v <- d1 p ;;
  s <- py_sqrt p.(T) ;;
  py_div (exp (- p.(q) * p.(T)) * std_norm_pdf d1v) (p.(S) * p.(sigma) * s).

Definition vega (p : OptionParams) : result R :=
  d1v <- d1 p ;;
  s <- py_sqrt p.(T) ;;
  Ok (p.(S) * exp (- p.(q) * p.(T)) * std_norm_pdf d1v * s).

Definition theta (p : OptionParams) (kind : string) : result R :=
  d1v <- d1 p ;;
  d2v <- d2 p (Some d1v) ;;
  s <- py_sqrt p.(T) ;;
  part1 <- py_div (- (p.(S) * exp (- p.(q) * p.(T)) * std_norm_pdf d1v * p.(sigma)))
                  (2 * s) ;;
  if (kind =? "call")%string
  then
    let part2 := - p.(r) * p.(K) * exp (- p.(r) * p.(T)) * std_norm_cdf d2v in
    let part3 := p.(q) * p.(S) * exp (- p.(q) * p.(T)) * std_norm_cdf d1v in
    Ok (part1 + part2 + part3)
  else
    let part2 := p.(r) * p.(K) * exp (- p.(r) * p.(T)) * std_norm_cdf (- d2v) in
    let part3 := - p.(q) * p.(S) * exp (- p.(q) * p.(T)) * std_norm_cdf (- d1v) in
    Ok (part1 + part2 + part3).

Definition rho (p : OptionParams) (kind : string) : result R :=
  d2v <- d2 p None ;;
  if (kind =? "call")%string
  then Ok (p.(K) * p.(T) * exp (- p.(r) * p.(T)) * std_norm_cdf d2v)
  else Ok (- p.(K) * p.(T) * exp (- p.(r) * p.(T)) * std_norm_cdf (- d2v)).

End black_scholes.

(** ** NumPy

    Arrays of floats are lists of reals.  A NumPy scalar is a real, [nan] or
    a signed infinity: NumPy's own division never raises, so the statistics
    of an empty array are [nan]. *)

Module numpy.

Inductive np_float : Type :=
  | Fin (x : R)
  | NaN
  | Inf (negative : bool).

Definition np_sum (a : list R) : R := fold_right Rplus 0 a.

(** [np.mean(a)], the sum over the number of elements. *)
Definition np_mean (a : list R) : np_float :=
  match a with
  | [] => NaN
  | _ :: _ => Fin (np_sum a / INR (List.length a))
  end.

(** [np.std(a)] with its default [ddof = 0]:
    [sqrt(mean(abs(a - a.mean()) ** 2))]. *)
Definition np_std (a : list R) : np_float :=
  match a with
  | [] => NaN
  | _ :: _ =>
      let m := np_sum a / INR (List.length a) in
      Fin (sqrt (np_sum (map (fun x => Rabs (x - m) ^ 2) a) / INR (List.length a)))
  end.

(** A NumPy scalar divided by a Python float. *)
Definition np_truediv (a : np_float) (b : R) : np_float :=
  match a with
  | NaN => NaN
  | Fin x =>
      if Req_dec_T b 0
      then if Req_dec_T x 0 then NaN
           else Inf (if Rlt_dec x 0 then true else false)
      else Fin (x / b)
  | Inf s => if Rlt_dec b 0 then Inf (negb s) else Inf s
  end.

(** A NumPy scalar minus a Python float. *)
Definition np_sub (a : np_float) (b : R) : np_float :=
  match a with
  | Fin x => Fin (x - b)
  | NaN => NaN
  | Inf s => Inf s
  end.

(** The process-wide generator of [np.random].  Its state after
    [np.random.seed(s)] followed by [k] normal draws is a function of [s] and
    [k] alone, and the model keeps this pair instead of the Mersenne Twister
    words.  [OsEntropy] is the seeding NumPy performs at import time. *)
Inductive origin : Set :=
  | OsEntropy
  | Seeded (seed : Z).

Record rng_state : Set := {
  rng_origin : origin;
  rng_drawn : nat
}.

(** Computations that may raise and that act on the process-wide generator.
    The generator keeps its state when an exception is raised. *)
Definition M (A : Type) : Type := rng_state -> result A * rng_state.

Definition ret {A : Type} (a : A) : M A := fun g => (Ok a, g).

Definition bindM {A B : Type} (c : M A) (k : A -> M B) : M B :=
  fun g =>
    match c g with
    | (Ok a, g') => k a g'
    | (Raise e, g') => (Raise e, g')
    end.

Definition lift {A : Type} (c : result A) : M A := fun g => (c, g).

(** [np.random.seed(seed)] accepts the integers of 32 bits. *)
Definition np_random_seed (seed : Z) : M unit :=
  fun g =>
    if ((0 <=? seed) && (seed <? 2 ^ 32))%Z
    then (Ok tt, {| rng_origin := Seeded seed; rng_drawn := 0 |})
    else (Raise ValueError, g).

Section Generator.

(** [gauss o i] is the [i]-th standard normal deviate that the generator
    returns after it was seeded as [o]. *)
Variable gauss : origin -> nat -> R.

(** [np.random.randn(n)]. *)
Definition np_random_randn (n : Z) : M (list R) :=
  fun g =>
    if (n <? 0)%Z
    then (Raise ValueError, g)
    else
      let k := Z.to_nat n in
      (Ok (map (gauss g.(rng_origin)) (seq g.(rng_drawn) k)),
       {| rng_origin := g.(rng_origin); rng_drawn := g.(rng_drawn) + k |}).

End Generator.

End numpy.

Declare Scope world_scope.
Delimit Scope world_scope with world.
Notation "x <- c ;; k" := (numpy.bindM c (fun x => k))
  (at level 61, c at next level, right associativity) : world_scope.

(** ** [models/monte_carlo.py] *)

Module monte_carlo.

Import black_scholes numpy.

(** The default arguments of [monte_carlo_price], which are also the
    defaults of the [MCParams] record. *)
Definition default_n_sims : Z := 100000.
Definition default_seed : Z := 42.

Section Generator.

Variable gauss : origin -> nat -> R.

Definition simulate_paths (p : OptionParams) (n_sims : Z) (seed : Z)
  : M (list R) :=
  (_ <- np_random_seed seed ;;
   Z <- np_random_randn gauss n_sims ;;
   let drift := (p.(r) - p.(q) - 0.5 * p.(sigma) ^ 2) * p.(T) in
   s <- lift (py_sqrt p.(T)) ;;
   let diffusion := map (fun z => p.(sigma) * s * z) Z in
   let ST := map (fun d => p.(S) * exp (drift + d)) diffusion in
   ret ST)%world.

Definition monte_carlo_price (p : OptionParams) (kind : string)
    (n_sims : Z) (seed : Z) : M (np_float * np_float) :=
  (ST <- simulate_paths p n_sims seed ;;
   let payoffs :=
     if (kind =? "call")%string
     then map (fun s => Rmax (s - p.(K)) 0) ST
     else map (fun s => Rmax (p.(K) - s) 0) ST in
   let discounted_payoffs := map (fun x => exp (- p.(r) * p.(T)) * x) payoffs in
   let price := np_mean discounted_payoffs in
   s <- lift (py_sqrt (IZR n_sims)) ;;
   let stderr := np_truediv (np_std discounted_payoffs) s in
   ret (price, stderr))%world.

End Generator.

End monte_carlo.

(** ** [interface/stats_analysis.py] *)

Module stats_analysis.

Import black_scholes numpy monte_carlo.

Section Generator.

Variable gauss : origin -> nat -> R.

(** The loop of [compare_mc_vs_bs]: each turn prices with the default seed
    and appends to the two lists. *)
Fixpoint compare_loop (p : OptionParams) (kind : string) (n_sims_list : list Z)
    (mc_prices mc_errors : list np_float)
  : M (list np_float * list np_float) :=
  match n_sims_list with
  | [] => ret (mc_prices, mc_errors)
  | n :: rest =>
      (pe <- monte_carlo_price gauss p kind n default_seed ;;
       compare_loop p kind rest (mc_prices ++ [fst pe]) (mc_errors ++ [snd pe]))%world
  end.

Definition compare_mc_vs_bs (p : OptionParams) (kind : string)
    (n_sims_list : list Z)
  : M (R * list np_float * list np_float * list np_float) :=
  (bs_price <- lift (black_scholes_price p kind) ;;
   arrays <- compare_loop p kind n_sims_list [] [] ;;
   let mc_prices := fst arrays in
   let mc_errors := snd arrays in
   let biases := map (fun m => np_sub m bs_price) mc_prices in
   ret (bs_price, mc_prices, mc_errors, biases))%world.

End Generator.

End stats_analysis.

(** ** [compare_mc_vs_bs], with its calls recorded

    A second reading of [interface/stats_analysis.py], in which every call
    of [black_scholes_price] and of [monte_carlo_price] is written to a log
    when it is made.  The log is not part of the program: it is what an
    observer of the calls would write down.  [compare_mc_vs_bs_logged]
    forgets to [compare_mc_vs_bs] (lemma [compare_mc_vs_bs_logged_erase]). *)

Module observed.

Import black_scholes numpy monte_carlo.

Inductive call : Type :=
  | BlackScholesPrice (p : OptionParams) (kind : string)
  | MonteCarloPrice (p : OptionParams) (kind : string) (n_sims seed : Z).

(** Computations on the process-wide generator and the log. *)
Definition L (A : Type) : Type :=
  rng_state * list call -> result A * (rng_state * list call).

Definition retL {A : Type} (a : A) : L A := fun w => (Ok a, w).

Definition bindL {A B : Type} (c : L A) (k : A -> L B) : L B :=
  fun w =>
    match c w with
    | (Ok a, w') => k a w'
    | (Raise e, w') => (Raise e, w')
    end.

(** A call is written to the log when it is made, whether it returns or
    raises. *)
Definition logged {A : Type} (c : call) (m : M A) : L A :=
  fun w =>
    let (outcome, g') := m (fst w) in
    (outcome, (g', snd w ++ [c])).

Definition is_analytical (c : call) : bool :=
  match c with
  | BlackScholesPrice _ _ => true
  | MonteCarloPrice _ _ _ _ => false
  end.

(** How many times the analytical price was asked for. *)
Definition analytical_calls (log : list call) : nat :=
  List.length (filter is_analytical log).

Section Generator.

Variable gauss : origin -> nat -> R.

Fixpoint compare_loop_logged (p : OptionParams) (kind : string)
    (n_sims_list : list Z) (mc_prices mc_errors : list np_float)
  : L (list np_float * list np_float) :=
  match n_sims_list with
  | [] => retL (mc_prices, mc_errors)
  | n :: rest =>
      bindL (logged (MonteCarloPrice p kind n default_seed)
                    (monte_carlo_price gauss p kind n default_seed))
            (fun pe =>
               compare_loop_logged p kind rest
                 (mc_prices ++ [fst pe]) (mc_errors ++ [snd pe]))
  end.

Definition compare_mc_vs_bs_logged (p : OptionParams) (kind : string)
    (n_sims_list : list Z)
  : L (R * list np_float * list np_float * list np_float) :=
  bindL (logged (BlackScholesPrice p kind) (lift (black_scholes_price p kind)))
        (fun bs_price =>
           bindL (compare_loop_logged p kind n_sims_list [] [])
                 (fun arrays =>
                    let mc_prices := fst arrays in
                    let mc_errors := snd arrays in
                    let biases := map (fun m => np_sub m bs_price) mc_prices in
                    retL (bs_price, mc_prices, mc_errors, biases))).

End Generator.

(** The tuple of the [return] statement of [compare_mc_vs_bs], component by
    component, as Python values: [bs_price] is a float, the other three are
    arrays. *)
Inductive py_value : Type :=
  | PyFloat (x : R)
  | NdArray (a : list np_float).

Definition returned_tuple
    (v : R * list np_float * list np_float * list np_float) : list py_value :=
  let '(bs_price, mc_prices, mc_errors, biases) := v in
  [PyFloat bs_price; NdArray mc_prices; NdArray mc_errors; NdArray biases].

(** A returned component that is a sequence with [n] entries. *)
Definition sequence_of_length (n : nat) (v : py_value) : Prop :=
  match v with
  | PyFloat _ => False
  | NdArray a => List.length a = n
  end.

End observed.

(** ** The closed form, as the specification writes it *)

Module formulas.

Import Erf.

(** [N], the standard normal distribution function, and [n], its density. *)
Definition N (x : R) : R := (1 + erf (x / sqrt 2)) / 2.
Definition n (x : R) : R := exp (- (x * x) / 2) / sqrt (2 * PI).

Section Closed_form.

Variables S K r q sigma T : R.

Definition d1_closed : R := (ln (S / K) + (r - q + sigma * sigma / 2) * T) / (sigma * sqrt T).
Definition d2_closed : R := d1_closed - sigma * sqrt T.

Definition discS : R := S * exp (- (q * T)).
Definition discK : R := K * exp (- (r * T)).

Definition callPrice : R := discS * N d1_closed - discK * N d2_closed.
Definition putPrice : R := discK * N (- d2_closed) - discS * N (- d1_closed).

Definition delta_call : R := exp (- (q * T)) * N d1_closed.
Definition delta_put : R := - (exp (- (q * T)) * N (- d1_closed)).
Definition gamma_closed : R := exp (- (q * T)) * n d1_closed / (S * sigma * sqrt T).
Definition vega_closed : R := S * exp (- (q * T)) * n d1_closed * sqrt T.
Definition theta_call : R :=
  - ((S * exp (- (q * T)) * n d1_closed * sigma) / (2 * sqrt T))
  - r * K * exp (- (r * T)) * N d2_closed + q * S * exp (- (q * T)) * N d1_closed.
Definition theta_put : R :=
  - ((S * exp (- (q * T)) * n d1_closed * sigma) / (2 * sqrt T))
  + r * K * exp (- (r * T)) * N (- d2_closed) - q * S * exp (- (q * T)) * N (- d1_closed).
Definition rho_call : R := K * T * exp (- (r * T)) * N d2_closed.
Definition rho_put : R := - (K * T * exp (- (r * T)) * N (- d2_closed)).

End Closed_form.

End formulas.

(** ** Sample statistics, as the specification names them *)

Module statistics.

Import numpy.

Definition mean (a : list R) : R := np_sum a / INR (List.length a).

Definition sum_sq_dev (a : list R) : R :=
  np_sum (map (fun x => (x - mean a) * (x - mean a)) a).

(** The standard deviation with Bessel's correction: [n - 1] in the
    denominator. *)
Definition sampleStdDev (a : list R) : R :=
  sqrt (sum_sq_dev a / (INR (List.length a) - 1)).

(** The standard deviation of the sample taken as a whole population: [n]
    in the denominator. *)
Definition populationStdDev (a : list R) : R :=
  sqrt (sum_sq_dev a / INR (List.length a)).

End statistics.

(** ** What the operations are compared with *)

Module expected.

Import black_scholes numpy monte_carlo.

(** The parameter sets on which the formulas are defined. *)
Definition valid (p : OptionParams) : Prop :=
  0 < p.(S) /\ 0 < p.(K) /\ 0 < p.(sigma) /\ 0 < p.(T).

(** The price and the five Greeks. *)
Definition analytic_ops (p : OptionParams) (kind : string) : list (result R) :=
  [black_scholes_price p kind; delta p kind; gamma p; vega p; theta p kind;
   rho p kind].

(** The seeds that [np.random.seed] accepts. *)
Definition seed_ok (seed : Z) : Prop := (0 <= seed < 2 ^ 32)%Z.

Definition after_call (n_sims : Z) (seed : Z) : rng_state :=
  {| rng_origin := Seeded seed; rng_drawn := Z.to_nat n_sims |}.

Section Generator.

Variable gauss : origin -> nat -> R.

(** The terminal prices of the exact one-step solution, for the deviates
    that follow [np.random.seed(seed)]. *)
Definition terminal_prices (p : OptionParams) (n_sims : Z) (seed : Z) : list R :=
  map (fun i =>
         p.(S) * exp ((p.(r) - p.(q) - p.(sigma) * p.(sigma) / 2) * p.(T)
                      + p.(sigma) * sqrt p.(T) * gauss (Seeded seed) i))
      (seq 0 (Z.to_nat n_sims)).

(** The discounted payoffs of [monte_carlo_price]; every kind other than
    ["call"] takes the put branch. *)
Definition discounted (p : OptionParams) (kind : string) (ST : list R) : list R :=
  map (fun s =>
         exp (- p.(r) * p.(T))
         * (if (kind =? "call")%string then Rmax (s - p.(K)) 0 else Rmax (p.(K) - s) 0))
      ST.

Definition mc_value (p : OptionParams) (kind : string) (n_sims seed : Z)
  : np_float * np_float :=
  let d := discounted p kind (terminal_prices p n_sims seed) in
  (np_mean d, np_truediv (np_std d) (sqrt (IZR n_sims))).

Definition mc_prices_of (p : OptionParams) (kind : string) (n_sims_list : list Z)
  : list np_float :=
  map (fun n => fst (mc_value p kind n default_seed)) n_sims_list.

Definition mc_errors_of (p : OptionParams) (kind : string) (n_sims_list : list Z)
  : list np_float :=
  map (fun n => snd (mc_value p kind n default_seed)) n_sims_list.

End Generator.

End expected.

(** ** Concrete inputs *)

Module inputs.

Import black_scholes numpy.

(** The parameters of the modules' own [__main__] blocks. *)
Definition example_params : OptionParams :=
  {| S := 100; K := 100; r := 0.05; q := 0.02; sigma := 0.2; T := 1 |}.

(** The same contract with no volatility. *)
Definition flat_params : OptionParams :=
  {| S := 100; K := 100; r := 0.05; q := 0.02; sigma := 0; T := 1 |}.

(** The generator as NumPy leaves it at import time. *)
Definition at_import : rng_state :=
  {| rng_origin := OsEntropy; rng_drawn := 0 |}.

(** A generator whose first two deviates are those that NumPy returns after
    [np.random.seed(42)]; the rest of the stream is not used. *)
Definition seed42_draws (o : origin) (i : nat) : R :=
  match i with
  | 0%nat => 0.4967141530112327
  | 1%nat => -0.13826430117118466
  | _ => 0
  end.

End inputs.

(** ** Parameter sets derived from a parameter set *)

Module transforms.

Import black_scholes.

(** The outcome of a computation seen through a function of its value. *)
Definition result_map {A B : Type} (f : A -> B) (c : result A) : result B :=
  match c with
  | Ok a => Ok (f a)
  | Raise e => Raise e
  end.

(** Spot and strike quoted in another unit. *)
Definition scale_spot_strike (lam : R) (p : OptionParams) : OptionParams :=
  {| S := lam * p.(S); K := lam * p.(K); r := p.(r); q := p.(q);
     sigma := p.(sigma); T := p.(T) |}.

(** Spot and strike exchanged, and the two rates with them. *)
Definition exchange (p : OptionParams) : OptionParams :=
  {| S := p.(K); K := p.(S); r := p.(q); q := p.(r);
     sigma := p.(sigma); T := p.(T) |}.

(** The same contract with another volatility. *)
Definition with_sigma (v : R) (p : OptionParams) : OptionParams :=
  {| S := p.(S); K := p.(K); r := p.(r); q := p.(q); sigma := v; T := p.(T) |}.

End transforms.

(** * Facts *)

(** ** The run-time primitives *)

Lemma py_div_ok (a b : R) : b <> 0 -> py_div a b = Ok (a / b).
Proof. intros Hb. unfold py_div. now destruct (Req_dec_T b 0). Qed.

Lemma py_div_zero (a : R) : py_div a 0 = Raise ZeroDivisionError.
Proof. unfold py_div. now destruct (Req_dec_T 0 0). Qed.

Lemma py_log_ok (x : R) : 0 < x -> py_log x = Ok (ln x).
Proof. intros Hx. unfold py_log. now destruct (Rlt_dec 0 x). Qed.

Lemma py_log_err (x : R) : x <= 0 -> py_log x = Raise ValueError.
Proof. intros Hx. unfold py_log. destruct (Rlt_dec 0 x); [lra | reflexivity]. Qed.

Lemma py_sqrt_ok (x : R) : 0 <= x -> py_sqrt x = Ok (sqrt x).
Proof. intros Hx. unfold py_sqrt. now destruct (Rle_dec 0 x). Qed.

Lemma py_sqrt_err (x : R) : x < 0 -> py_sqrt x = Raise ValueError.
Proof. intros Hx. unfold py_sqrt. destruct (Rle_dec 0 x); [lra | reflexivity]. Qed.

(** ** Black-Scholes: the code against the closed form *)

Module black_scholes_facts.

Import Erf black_scholes expected.

(** The error function is odd. *)
Lemma erf_odd (x : R) : erf (- x) = - erf x.
Proof.
  unfold erf. rewrite <- Rsqr_neg. ring.
Qed.

Lemma erf_0 : erf 0 = 0.
Proof. unfold erf. ring. Qed.

(** The code writes [-a * b] where the closed form has [-(a * b)]. *)
Ltac signs :=
  rewrite <- ?Ropp_mult_distr_l; try reflexivity;
  f_equal; try reflexivity; unfold Rdiv; ring.

Lemma std_norm_cdf_N (x : R) : std_norm_cdf x = formulas.N x.
Proof. unfold std_norm_cdf, formulas.N. replace 2.0 with 2 by lra. lra. Qed.

Lemma std_norm_pdf_n (x : R) : std_norm_pdf x = formulas.n x.
Proof.
  unfold std_norm_pdf, formulas.n.
  replace (-0.5 * x ^ 2) with (- (x * x) / 2) by lra.
  unfold Rdiv. ring.
Qed.

(** The distribution function is symmetric about the origin. *)
Lemma N_symmetric (x : R) : formulas.N (- x) = 1 - formulas.N x.
Proof.
  unfold formulas.N.
  replace (- x / sqrt 2) with (- (x / sqrt 2)) by (unfold Rdiv; ring).
  rewrite erf_odd. lra.
Qed.

Lemma N_0 : formulas.N 0 = / 2.
Proof.
  unfold formulas.N. replace (0 / sqrt 2) with 0 by (unfold Rdiv; ring).
  rewrite erf_0. lra.
Qed.

Lemma sqrt_T_pos (p : OptionParams) : 0 < p.(T) -> 0 < sqrt p.(T).
Proof. apply sqrt_lt_R0. Qed.

Lemma d1_valid (p : OptionParams) :
  valid p ->
  d1 p = Ok (formulas.d1_closed p.(S) p.(K) p.(r) p.(q) p.(sigma) p.(T)).
Proof.
  intros (HS & HK & Hsig & HT).
  pose proof (sqrt_T_pos p HT) as Hs.
  unfold d1. rewrite py_div_ok by lra. cbn [bind].
  rewrite py_log_ok by (now apply Rdiv_lt_0_compat). cbn [bind].
  rewrite py_sqrt_ok by lra. cbn [bind].
  rewrite py_div_ok by (apply Rgt_not_eq, Rmult_lt_0_compat; assumption).
  f_equal. unfold formulas.d1_closed. f_equal. lra.
Qed.

Lemma d2_valid (p : OptionParams) (d1_val : R) :
  0 <= p.(T) -> d2 p (Some d1_val) = Ok (d1_val - p.(sigma) * sqrt p.(T)).
Proof.
  intros HT. unfold d2. cbn [bind]. now rewrite py_sqrt_ok.
Qed.

Lemma d2_default_valid (p : OptionParams) :
  valid p ->
  d2 p None = Ok (formulas.d2_closed p.(S) p.(K) p.(r) p.(q) p.(sigma) p.(T)).
Proof.
  intros Hp. pose proof Hp as (_ & _ & _ & HT).
  unfold d2. rewrite d1_valid by assumption. cbn [bind].
  rewrite py_sqrt_ok by lra. reflexivity.
Qed.

Lemma call_price_valid (p : OptionParams) :
  valid p ->
  call_price p = Ok (formulas.callPrice p.(S) p.(K) p.(r) p.(q) p.(sigma) p.(T)).
Proof.
  intros Hp. pose proof Hp as (_ & _ & _ & HT).
  unfold call_price. rewrite d1_valid by assumption. cbn [bind].
  rewrite d2_valid by lra. cbn [bind].
  rewrite !std_norm_cdf_N. f_equal.
  unfold formulas.callPrice, formulas.discS, formulas.discK, formulas.d2_closed.
  now rewrite !Ropp_mult_distr_l.
Qed.

Lemma put_price_valid (p : OptionParams) :
  valid p ->
  put_price p = Ok (formulas.putPrice p.(S) p.(K) p.(r) p.(q) p.(sigma) p.(T)).
Proof.
  intros Hp. pose proof Hp as (_ & _ & _ & HT).
  unfold put_price. rewrite d1_valid by assumption. cbn [bind].
  rewrite d2_valid by lra. cbn [bind].
  rewrite !std_norm_cdf_N. f_equal.
  unfold formulas.putPrice, formulas.discS, formulas.discK, formulas.d2_closed.
  now rewrite !Ropp_mult_distr_l.
Qed.

End black_scholes_facts.

(** ** Monte Carlo: what a call returns and what it leaves behind *)

Module monte_carlo_facts.

Import black_scholes numpy monte_carlo expected.

Lemma seed_ok_test (seed : Z) :
  seed_ok seed -> ((0 <=? seed) && (seed <? 2 ^ 32))%Z = true.
Proof.
  intros [H0 H1]. apply andb_true_intro. split.
  - now apply Z.leb_le.
  - now apply Z.ltb_lt.
Qed.

Lemma seed_bad_test (seed : Z) :
  ~ seed_ok seed -> ((0 <=? seed) && (seed <? 2 ^ 32))%Z = false.
Proof.
  intros Hbad. apply not_true_is_false. intros Htrue.
  apply andb_prop in Htrue as [H0 H1].
  apply Hbad. split; [now apply Z.leb_le | now apply Z.ltb_lt].
Qed.

Section Generator.

Variable gauss : origin -> nat -> R.

Lemma terminal_prices_length (p : OptionParams) (n_sims seed : Z) :
  List.length (terminal_prices gauss p n_sims seed) = Z.to_nat n_sims.
Proof. unfold terminal_prices. now rewrite length_map, length_seq. Qed.

(** The four ways a call of [simulate_paths] can go. *)
Lemma simulate_paths_bad_seed (p : OptionParams) (n_sims seed : Z) (g : rng_state) :
  ~ seed_ok seed ->
  simulate_paths gauss p n_sims seed g = (Raise ValueError, g).
Proof.
  intros Hseed. unfold simulate_paths, bindM, np_random_seed.
  now rewrite seed_bad_test.
Qed.

Lemma simulate_paths_negative (p : OptionParams) (n_sims seed : Z) (g : rng_state) :
  seed_ok seed -> (n_sims < 0)%Z ->
  simulate_paths gauss p n_sims seed g = (Raise ValueError, after_call 0 seed).
Proof.
  intros Hseed Hn. unfold simulate_paths, bindM, np_random_seed, np_random_randn.
  rewrite seed_ok_test by assumption.
  apply Z.ltb_lt in Hn. now rewrite Hn.
Qed.

Lemma simulate_paths_negative_T (p : OptionParams) (n_sims seed : Z) (g : rng_state) :
  seed_ok seed -> (0 <= n_sims)%Z -> p.(T) < 0 ->
  simulate_paths gauss p n_sims seed g = (Raise ValueError, after_call n_sims seed).
Proof.
  intros Hseed Hn HT. unfold simulate_paths, bindM, np_random_seed, np_random_randn, lift.
  rewrite seed_ok_test by assumption.
  apply Z.ltb_ge in Hn. rewrite Hn. cbn [rng_origin rng_drawn Nat.add].
  now rewrite py_sqrt_err.
Qed.

Lemma simulate_paths_run (p : OptionParams) (n_sims seed : Z) (g : rng_state) :
  seed_ok seed -> (0 <= n_sims)%Z -> 0 <= p.(T) ->
  simulate_paths gauss p n_sims seed g
  = (Ok (terminal_prices gauss p n_sims seed), after_call n_sims seed).
Proof.
  intros Hseed Hn HT. unfold simulate_paths, bindM, np_random_seed, np_random_randn, lift, ret.
  rewrite seed_ok_test by assumption.
  apply Z.ltb_ge in Hn. rewrite Hn. cbn [rng_origin rng_drawn Nat.add].
  rewrite py_sqrt_ok by assumption.
  unfold terminal_prices, after_call. rewrite !map_map.
  f_equal. f_equal. apply map_ext. intros i.
  f_equal. f_equal. lra.
Qed.

Lemma monte_carlo_price_bad_seed (p : OptionParams) (kind : string)
    (n_sims seed : Z) (g : rng_state) :
  ~ seed_ok seed ->
  monte_carlo_price gauss p kind n_sims seed g = (Raise ValueError, g).
Proof.
  intros Hseed. unfold monte_carlo_price, bindM.
  now rewrite simulate_paths_bad_seed.
Qed.

Lemma monte_carlo_price_negative (p : OptionParams) (kind : string)
    (n_sims seed : Z) (g : rng_state) :
  seed_ok seed -> (n_sims < 0)%Z ->
  monte_carlo_price gauss p kind n_sims seed g = (Raise ValueError, after_call 0 seed).
Proof.
  intros Hseed Hn. unfold monte_carlo_price, bindM.
  now rewrite simulate_paths_negative.
Qed.

Lemma monte_carlo_price_negative_T (p : OptionParams) (kind : string)
    (n_sims seed : Z) (g : rng_state) :
  seed_ok seed -> (0 <= n_sims)%Z -> p.(T) < 0 ->
  monte_carlo_price gauss p kind n_sims seed g
  = (Raise ValueError, after_call n_sims seed).
Proof.
  intros Hseed Hn HT. unfold monte_carlo_price, bindM.
  now rewrite simulate_paths_negative_T.
Qed.

Lemma monte_carlo_price_run (p : OptionParams) (kind : string)
    (n_sims seed : Z) (g : rng_state) :
  seed_ok seed -> (0 <= n_sims)%Z -> 0 <= p.(T) ->
  monte_carlo_price gauss p kind n_sims seed g
  = (Ok (mc_value gauss p kind n_sims seed), after_call n_sims seed).
Proof.
  intros Hseed Hn HT. unfold monte_carlo_price, bindM, lift, ret.
  rewrite simulate_paths_run by assumption.
  rewrite py_sqrt_ok by (apply IZR_le in Hn; exact Hn).
  unfold mc_value, discounted.
  destruct (kind =? "call")%string; now rewrite map_map.
Qed.

(** Neither the outcome nor, once the seed is accepted, the generator left
    behind depends on the generator found. *)
Lemma monte_carlo_price_outcome (p : OptionParams) (kind : string)
    (n_sims seed : Z) (g g' : rng_state) :
  fst (monte_carlo_price gauss p kind n_sims seed g)
  = fst (monte_carlo_price gauss p kind n_sims seed g').
Proof.
  destruct (Z_le_dec 0 seed) as [H0 | H0];
    [destruct (Z_lt_dec seed (2 ^ 32)) as [H1 | H1] |].
  - assert (Hseed : seed_ok seed) by (split; assumption).
    destruct (Z_lt_dec n_sims 0) as [Hn | Hn].
    + now rewrite !monte_carlo_price_negative.
    + destruct (Rlt_dec p.(T) 0) as [HT | HT].
      * rewrite !monte_carlo_price_negative_T by (assumption || lia). reflexivity.
      * rewrite !monte_carlo_price_run by (assumption || lia || lra). reflexivity.
  - rewrite !monte_carlo_price_bad_seed by (unfold seed_ok; lia). reflexivity.
  - rewrite !monte_carlo_price_bad_seed by (unfold seed_ok; lia). reflexivity.
Qed.

Lemma simulate_paths_outcome (p : OptionParams) (n_sims seed : Z) (g g' : rng_state) :
  fst (simulate_paths gauss p n_sims seed g)
  = fst (simulate_paths gauss p n_sims seed g').
Proof.
  destruct (Z_le_dec 0 seed) as [H0 | H0];
    [destruct (Z_lt_dec seed (2 ^ 32)) as [H1 | H1] |].
  - assert (Hseed : seed_ok seed) by (split; assumption).
    destruct (Z_lt_dec n_sims 0) as [Hn | Hn].
    + now rewrite !simulate_paths_negative.
    + destruct (Rlt_dec p.(T) 0) as [HT | HT].
      * rewrite !simulate_paths_negative_T by (assumption || lia). reflexivity.
      * rewrite !simulate_paths_run by (assumption || lia || lra). reflexivity.
  - rewrite !simulate_paths_bad_seed by (unfold seed_ok; lia). reflexivity.
  - rewrite !simulate_paths_bad_seed by (unfold seed_ok; lia). reflexivity.
Qed.

End Generator.

End monte_carlo_facts.

(** ** Sample statistics: NumPy against the definitions *)

Module statistics_facts.

Import numpy statistics.

Lemma np_mean_nonempty (a : list R) :
  a <> [] -> np_mean a = Fin (mean a).
Proof. destruct a; [congruence | reflexivity]. Qed.

Lemma np_sum_ext (f h : R -> R) (a : list R) :
  (forall x, f x = h x) -> np_sum (map f a) = np_sum (map h a).
Proof.
  intros Hfh. induction a as [| x a IH]; cbn [map np_sum fold_right].
  - reflexivity.
  - unfold np_sum in IH. now rewrite Hfh, IH.
Qed.

Lemma np_std_nonempty (a : list R) :
  a <> [] -> np_std a = Fin (populationStdDev a).
Proof.
  destruct a as [| x a]; [congruence |]. intros _.
  unfold np_std, populationStdDev, sum_sq_dev. fold (mean (x :: a)).
  do 3 f_equal. apply np_sum_ext. intros y.
  rewrite pow2_abs. ring.
Qed.

Lemma np_sum_nonneg (f : R -> R) (a : list R) :
  (forall x, 0 <= f x) -> 0 <= np_sum (map f a).
Proof.
  intros Hf. induction a as [| x a IH]; cbn [map np_sum fold_right].
  - lra.
  - unfold np_sum in IH. specialize (Hf x). lra.
Qed.

Lemma sum_sq_dev_nonneg (a : list R) : 0 <= sum_sq_dev a.
Proof.
  unfold sum_sq_dev. apply np_sum_nonneg. intros x.
  apply Rle_0_sqr.
Qed.

(** With at least two values that are not all equal, the two standard
    deviations differ. *)
Lemma population_neq_sample (a : list R) :
  (2 <= List.length a)%nat -> 0 < sum_sq_dev a ->
  populationStdDev a <> sampleStdDev a.
Proof.
  intros Hlen Hss Heq. unfold populationStdDev, sampleStdDev in Heq.
  assert (Hn : 2 <= INR (List.length a)) by (apply (le_INR 2); exact Hlen).
  apply sqrt_inj in Heq.
  - assert (Hinv : / INR (List.length a) < / (INR (List.length a) - 1))
      by (apply Rinv_lt_contravar; [nra | lra]).
    unfold Rdiv in Heq. nra.
  - apply Rlt_le, Rdiv_lt_0_compat; lra.
  - apply Rlt_le, Rdiv_lt_0_compat; lra.
Qed.

End statistics_facts.

(** ** The Greeks against the closed form *)

Module greeks_facts.

Import black_scholes expected black_scholes_facts.

Section Valid.

Variable p : OptionParams.
Hypothesis Hp : valid p.

Let d1c : R := formulas.d1_closed p.(S) p.(K) p.(r) p.(q) p.(sigma) p.(T).
Let d2c : R := formulas.d2_closed p.(S) p.(K) p.(r) p.(q) p.(sigma) p.(T).

Lemma delta_call_valid :
  delta p "call" = Ok (formulas.delta_call p.(S) p.(K) p.(r) p.(q) p.(sigma) p.(T)).
Proof.
  unfold delta. rewrite d1_valid by assumption. cbn [bind String.eqb Ascii.eqb Bool.eqb].
  rewrite std_norm_cdf_N. unfold formulas.delta_call.
  signs.
Qed.

Lemma delta_put_valid :
  delta p "put" = Ok (formulas.delta_put p.(S) p.(K) p.(r) p.(q) p.(sigma) p.(T)).
Proof.
  unfold delta. rewrite d1_valid by assumption. cbn [bind String.eqb Ascii.eqb Bool.eqb].
  rewrite std_norm_cdf_N. unfold formulas.delta_put.
  signs.
Qed.

Lemma gamma_valid :
  gamma p = Ok (formulas.gamma_closed p.(S) p.(K) p.(r) p.(q) p.(sigma) p.(T)).
Proof.
  destruct Hp as (HS & HK & Hsig & HT).
  pose proof (sqrt_T_pos p HT) as Hs.
  unfold gamma. rewrite d1_valid by assumption. cbn [bind].
  rewrite py_sqrt_ok by lra. cbn [bind].
  rewrite py_div_ok.
  - rewrite std_norm_pdf_n. unfold formulas.gamma_closed.
    signs.
  - apply Rgt_not_eq. repeat apply Rmult_lt_0_compat; assumption.
Qed.

Lemma vega_valid :
  vega p = Ok (formulas.vega_closed p.(S) p.(K) p.(r) p.(q) p.(sigma) p.(T)).
Proof.
  destruct Hp as (HS & HK & Hsig & HT).
  unfold vega. rewrite d1_valid by assumption. cbn [bind].
  rewrite py_sqrt_ok by lra. cbn [bind].
  rewrite std_norm_pdf_n. unfold formulas.vega_closed.
  signs.
Qed.

Lemma theta_part1 :
  py_div (- (p.(S) * exp (- p.(q) * p.(T)) * std_norm_pdf d1c * p.(sigma)))
         (2 * sqrt p.(T))
  = Ok (- ((p.(S) * exp (- (p.(q) * p.(T))) * formulas.n d1c * p.(sigma))
           / (2 * sqrt p.(T)))).
Proof.
  destruct Hp as (HS & HK & Hsig & HT).
  pose proof (sqrt_T_pos p HT) as Hs.
  rewrite py_div_ok by lra.
  rewrite std_norm_pdf_n. signs.
Qed.

Lemma theta_call_valid :
  theta p "call" = Ok (formulas.theta_call p.(S) p.(K) p.(r) p.(q) p.(sigma) p.(T)).
Proof.
  pose proof Hp as (HS & HK & Hsig & HT).
  unfold theta. rewrite d1_valid by assumption. cbn [bind].
  rewrite d2_valid by lra. cbn [bind].
  rewrite py_sqrt_ok by lra. cbn [bind].
  fold d1c. rewrite theta_part1. cbn [bind String.eqb Ascii.eqb Bool.eqb].
  rewrite !std_norm_cdf_N. f_equal.
  unfold formulas.theta_call. fold d1c. fold d2c.
  replace (d1c - p.(sigma) * sqrt p.(T)) with d2c by reflexivity.
  signs.
Qed.

Lemma theta_put_valid :
  theta p "put" = Ok (formulas.theta_put p.(S) p.(K) p.(r) p.(q) p.(sigma) p.(T)).
Proof.
  pose proof Hp as (HS & HK & Hsig & HT).
  unfold theta. rewrite d1_valid by assumption. cbn [bind].
  rewrite d2_valid by lra. cbn [bind].
  rewrite py_sqrt_ok by lra. cbn [bind].
  fold d1c. rewrite theta_part1. cbn [bind String.eqb Ascii.eqb Bool.eqb].
  rewrite !std_norm_cdf_N. f_equal.
  unfold formulas.theta_put. fold d1c. fold d2c.
  replace (d1c - p.(sigma) * sqrt p.(T)) with d2c by reflexivity.
  signs.
Qed.

Lemma rho_call_valid :
  rho p "call" = Ok (formulas.rho_call p.(S) p.(K) p.(r) p.(q) p.(sigma) p.(T)).
Proof.
  unfold rho. rewrite d2_default_valid by assumption.
  cbn [bind String.eqb Ascii.eqb Bool.eqb].
  rewrite std_norm_cdf_N. unfold formulas.rho_call.
  signs.
Qed.

Lemma rho_put_valid :
  rho p "put" = Ok (formulas.rho_put p.(S) p.(K) p.(r) p.(q) p.(sigma) p.(T)).
Proof.
  unfold rho. rewrite d2_default_valid by assumption.
  cbn [bind String.eqb Ascii.eqb Bool.eqb].
  rewrite std_norm_cdf_N. unfold formulas.rho_put.
  signs.
Qed.

End Valid.

End greeks_facts.

(** ** Outcomes on every parameter set

    Each analytical function starts by computing [d1], and [d1] is the only
    step that can raise: the later square roots and divisions have the
    arguments that [d1] has already accepted. *)

Module outcome_facts.

Import black_scholes black_scholes_facts expected.

Lemma d1_zero_strike (p : OptionParams) :
  p.(K) = 0 -> d1 p = Raise ZeroDivisionError.
Proof. intros HK. unfold d1. now rewrite HK, py_div_zero. Qed.

Lemma d1_log_domain (p : OptionParams) :
  p.(K) <> 0 -> p.(S) / p.(K) <= 0 -> d1 p = Raise ValueError.
Proof.
  intros HK Hx. unfold d1. rewrite py_div_ok by assumption. cbn [bind].
  now rewrite py_log_err.
Qed.

Lemma d1_negative_maturity (p : OptionParams) :
  p.(K) <> 0 -> 0 < p.(S) / p.(K) -> p.(T) < 0 -> d1 p = Raise ValueError.
Proof.
  intros HK Hx HT. unfold d1. rewrite py_div_ok by assumption. cbn [bind].
  rewrite py_log_ok by assumption. cbn [bind].
  now rewrite py_sqrt_err.
Qed.

Lemma d1_zero_denominator (p : OptionParams) :
  p.(K) <> 0 -> 0 < p.(S) / p.(K) -> 0 <= p.(T) ->
  p.(sigma) = 0 \/ p.(T) = 0 ->
  d1 p = Raise ZeroDivisionError.
Proof.
  intros HK Hx HT Hz. unfold d1. rewrite py_div_ok by assumption. cbn [bind].
  rewrite py_log_ok by assumption. cbn [bind].
  rewrite py_sqrt_ok by assumption. cbn [bind].
  replace (p.(sigma) * sqrt p.(T)) with 0; [apply py_div_zero |].
  destruct Hz as [Hz | Hz]; rewrite Hz; [| rewrite sqrt_0]; ring.
Qed.

Lemma d1_defined (p : OptionParams) :
  p.(K) <> 0 -> 0 < p.(S) / p.(K) -> 0 < p.(T) -> p.(sigma) <> 0 ->
  d1 p = Ok (formulas.d1_closed p.(S) p.(K) p.(r) p.(q) p.(sigma) p.(T)).
Proof.
  intros HK Hx HT Hsig. pose proof (sqrt_T_pos p HT) as Hs.
  unfold d1. rewrite py_div_ok by assumption. cbn [bind].
  rewrite py_log_ok by assumption. cbn [bind].
  rewrite py_sqrt_ok by lra. cbn [bind].
  rewrite py_div_ok by (apply Rmult_integral_contrapositive_currified; lra).
  f_equal. unfold formulas.d1_closed. f_equal. lra.
Qed.

Lemma ops_raise (p : OptionParams) (kind : string) (e : exn) :
  d1 p = Raise e -> Forall (eq (Raise e)) (analytic_ops p kind).
Proof.
  intros He. unfold analytic_ops.
  repeat constructor;
    unfold black_scholes_price, call_price, put_price, delta, gamma, vega,
      theta, rho, d2;
    rewrite ?He; cbn [bind]; now destruct (kind =? "call")%string.
Qed.

Lemma ops_succeed (p : OptionParams) (kind : string) :
  p.(S) <> 0 -> 0 < p.(T) -> p.(sigma) <> 0 -> succeeds (d1 p) ->
  Forall succeeds (analytic_ops p kind).
Proof.
  intros HS HT Hsig [v Hv]. pose proof (sqrt_T_pos p HT) as Hs.
  assert (Hg : p.(S) * p.(sigma) * sqrt p.(T) <> 0)
    by (repeat apply Rmult_integral_contrapositive_currified; lra).
  unfold analytic_ops.
  repeat constructor;
    unfold black_scholes_price, call_price, put_price, delta, gamma, vega,
      theta, rho, d2, succeeds;
    rewrite ?Hv; cbn [bind];
    rewrite ?py_sqrt_ok by lra; cbn [bind];
    rewrite ?py_div_ok by lra; cbn [bind];
    destruct (kind =? "call")%string; cbn [bind];
    rewrite ?py_sqrt_ok by lra; cbn [bind]; eexists; reflexivity.
Qed.

(** A kind other than ["call"] selects the second branch everywhere. *)
Lemma not_call (kind : string) : kind <> "call"%string -> (kind =? "call")%string = false.
Proof. apply String.eqb_neq. Qed.

Lemma ops_not_call (p : OptionParams) (kind : string) :
  kind <> "call"%string -> analytic_ops p kind = analytic_ops p "put".
Proof.
  intros Hk. apply not_call in Hk.
  unfold analytic_ops, black_scholes_price, delta, theta, rho.
  rewrite Hk. reflexivity.
Qed.

End outcome_facts.

(** ** The convergence loop *)

Module stats_analysis_facts.

Import black_scholes numpy monte_carlo stats_analysis expected monte_carlo_facts.

Lemma seed_ok_default : seed_ok default_seed.
Proof. unfold seed_ok, default_seed. lia. Qed.

Section Generator.

Variable gauss : origin -> nat -> R.

Lemma compare_loop_run (p : OptionParams) (kind : string) (n_sims_list : list Z) :
  0 <= p.(T) -> Forall (fun n => 0 <= n)%Z n_sims_list ->
  forall (mc_prices mc_errors : list np_float) (g : rng_state),
    fst (compare_loop gauss p kind n_sims_list mc_prices mc_errors g)
    = Ok (mc_prices ++ mc_prices_of gauss p kind n_sims_list,
          mc_errors ++ mc_errors_of gauss p kind n_sims_list).
Proof.
  intros HT Hpos. induction Hpos as [| n rest Hn Hrest IH]; intros mc_prices mc_errors g.
  - cbn. now rewrite !app_nil_r.
  - cbn [compare_loop]. unfold bindM.
    rewrite monte_carlo_price_run by (assumption || apply seed_ok_default).
    rewrite IH. unfold mc_prices_of, mc_errors_of. cbn [map].
    now rewrite <- !app_assoc.
Qed.

Lemma compare_mc_vs_bs_run (p : OptionParams) (kind : string)
    (n_sims_list : list Z) (bs_price : R) (g : rng_state) :
  0 <= p.(T) -> Forall (fun n => 0 <= n)%Z n_sims_list ->
  black_scholes_price p kind = Ok bs_price ->
  fst (compare_mc_vs_bs gauss p kind n_sims_list g)
  = Ok (bs_price,
        mc_prices_of gauss p kind n_sims_list,
        mc_errors_of gauss p kind n_sims_list,
        map (fun m => np_sub m bs_price) (mc_prices_of gauss p kind n_sims_list)).
Proof.
  intros HT Hpos Hbs. unfold compare_mc_vs_bs, bindM, lift, ret.
  rewrite Hbs.
  pose proof (compare_loop_run p kind n_sims_list HT Hpos [] [] g) as Hloop.
  destruct (compare_loop gauss p kind n_sims_list [] [] g) as [[arrays | e] g'];
    cbn [fst] in Hloop; [| discriminate].
  injection Hloop as ->. reflexivity.
Qed.

(** When the analytical price raises, no simulation is run and the
    generator is left as it was. *)
Lemma compare_mc_vs_bs_raises_first (p : OptionParams) (kind : string)
    (n_sims_list : list Z) (e : exn) (g : rng_state) :
  black_scholes_price p kind = Raise e ->
  compare_mc_vs_bs gauss p kind n_sims_list g = (Raise e, g).
Proof.
  intros Hbs. unfold compare_mc_vs_bs, bindM, lift. now rewrite Hbs.
Qed.

End Generator.

End stats_analysis_facts.

(** * Lemmas and theorems about the concrete inputs and the claims *)

Import black_scholes numpy monte_carlo stats_analysis statistics expected inputs.
Import black_scholes_facts monte_carlo_facts statistics_facts outcome_facts.
Import greeks_facts stats_analysis_facts.

Lemma valid_example_params : valid example_params.
Proof. unfold valid, example_params. cbn. lra. Qed.

Lemma seed_ok_42 : seed_ok 42.
Proof. exact seed_ok_default. Qed.

(** ** The analytical pricer *)

(** C1. On every parameter set with [S > 0], [K > 0], [sigma > 0] and
    [T > 0], [black_scholes_price] returns the Black-Scholes closed form:
    [S exp(-qT) N(d1) - K exp(-rT) N(d2)] for a call and
    [K exp(-rT) N(-d2) - S exp(-qT) N(-d1)] for a put, with
    [d1 = (ln(S/K) + (r - q + sigma^2/2) T) / (sigma sqrt T)] and
    [d2 = d1 - sigma sqrt T]. *)
Theorem black_scholes_price_closed_form (p : OptionParams) :
  valid p ->
  black_scholes_price p "call"
  = Ok (formulas.callPrice p.(S) p.(K) p.(r) p.(q) p.(sigma) p.(T))
  /\ black_scholes_price p "put"
     = Ok (formulas.putPrice p.(S) p.(K) p.(r) p.(q) p.(sigma) p.(T)).
Proof.
  intros Hp. split.
  - exact (call_price_valid p Hp).
  - exact (put_price_valid p Hp).
Qed.

Lemma black_scholes_price_closed_form_witness :
  valid example_params
  /\ black_scholes_price example_params "call"
     = Ok (formulas.callPrice 100 100 0.05 0.02 0.2 1)
  /\ black_scholes_price example_params "put"
     = Ok (formulas.putPrice 100 100 0.05 0.02 0.2 1).
Proof.
  split.
  - exact valid_example_params.
  - exact (black_scholes_price_closed_form example_params valid_example_params).
Defined.

(** C2. On every parameter set with [S > 0], [K > 0], [sigma > 0] and
    [T > 0], the five Greeks are the closed-form sensitivities: delta, theta
    and rho for a call and for a put, gamma and vega whatever the kind. *)
Theorem greeks_closed_form (p : OptionParams) :
  valid p ->
  delta p "call" = Ok (formulas.delta_call p.(S) p.(K) p.(r) p.(q) p.(sigma) p.(T))
  /\ delta p "put" = Ok (formulas.delta_put p.(S) p.(K) p.(r) p.(q) p.(sigma) p.(T))
  /\ gamma p = Ok (formulas.gamma_closed p.(S) p.(K) p.(r) p.(q) p.(sigma) p.(T))
  /\ vega p = Ok (formulas.vega_closed p.(S) p.(K) p.(r) p.(q) p.(sigma) p.(T))
  /\ theta p "call" = Ok (formulas.theta_call p.(S) p.(K) p.(r) p.(q) p.(sigma) p.(T))
  /\ theta p "put" = Ok (formulas.theta_put p.(S) p.(K) p.(r) p.(q) p.(sigma) p.(T))
  /\ rho p "call" = Ok (formulas.rho_call p.(S) p.(K) p.(r) p.(q) p.(sigma) p.(T))
  /\ rho p "put" = Ok (formulas.rho_put p.(S) p.(K) p.(r) p.(q) p.(sigma) p.(T)).
Proof.
  intros Hp.
  pose proof (delta_call_valid p Hp). pose proof (delta_put_valid p Hp).
  pose proof (gamma_valid p Hp). pose proof (vega_valid p Hp).
  pose proof (theta_call_valid p Hp). pose proof (theta_put_valid p Hp).
  pose proof (rho_call_valid p Hp). pose proof (rho_put_valid p Hp).
  repeat split; assumption.
Qed.

Lemma greeks_closed_form_witness :
  valid example_params
  /\ delta example_params "call" = Ok (formulas.delta_call 100 100 0.05 0.02 0.2 1)
  /\ delta example_params "put" = Ok (formulas.delta_put 100 100 0.05 0.02 0.2 1)
  /\ gamma example_params = Ok (formulas.gamma_closed 100 100 0.05 0.02 0.2 1)
  /\ vega example_params = Ok (formulas.vega_closed 100 100 0.05 0.02 0.2 1)
  /\ theta example_params "call" = Ok (formulas.theta_call 100 100 0.05 0.02 0.2 1)
  /\ theta example_params "put" = Ok (formulas.theta_put 100 100 0.05 0.02 0.2 1)
  /\ rho example_params "call" = Ok (formulas.rho_call 100 100 0.05 0.02 0.2 1)
  /\ rho example_params "put" = Ok (formulas.rho_put 100 100 0.05 0.02 0.2 1).
Proof.
  split.
  - exact valid_example_params.
  - exact (greeks_closed_form example_params valid_example_params).
Defined.

(** C7. Put-call parity: on every parameter set with [S > 0], [K > 0],
    [sigma > 0] and [T > 0] both prices are returned and the call price
    minus the put price is [S exp(-qT) - K exp(-rT)]. *)
Theorem put_call_parity (p : OptionParams) :
  valid p ->
  exists callPrice putPrice : R,
    call_price p = Ok callPrice
    /\ put_price p = Ok putPrice
    /\ callPrice - putPrice
       = p.(S) * exp (- (p.(q) * p.(T))) - p.(K) * exp (- (p.(r) * p.(T))).
Proof.
  intros Hp.
  exists (formulas.callPrice p.(S) p.(K) p.(r) p.(q) p.(sigma) p.(T)),
         (formulas.putPrice p.(S) p.(K) p.(r) p.(q) p.(sigma) p.(T)).
  split; [exact (call_price_valid p Hp) |].
  split; [exact (put_price_valid p Hp) |].
  unfold formulas.callPrice, formulas.putPrice, formulas.discS, formulas.discK.
  rewrite !N_symmetric. ring.
Qed.

Lemma put_call_parity_witness :
  valid example_params
  /\ exists callPrice putPrice : R,
       call_price example_params = Ok callPrice
       /\ put_price example_params = Ok putPrice
       /\ callPrice - putPrice = 100 * exp (- (0.02 * 1)) - 100 * exp (- (0.05 * 1)).
Proof.
  split.
  - exact valid_example_params.
  - exact (put_call_parity example_params valid_example_params).
Defined.

(** ** The Monte Carlo estimator *)

Lemma sqrt_count_pos (n_sims : Z) : (0 < n_sims)%Z -> 0 < sqrt (IZR n_sims).
Proof. intros Hn. apply sqrt_lt_R0. now apply (IZR_lt 0). Qed.

Lemma discounted_length (p : OptionParams) (kind : string) (ST : list R) :
  List.length (discounted p kind ST) = List.length ST.
Proof. unfold discounted. apply length_map. Qed.

Lemma mc_value_positive (gauss : origin -> nat -> R) (p : OptionParams)
    (kind : string) (n_sims seed : Z) :
  (0 < n_sims)%Z ->
  mc_value gauss p kind n_sims seed
  = (Fin (mean (discounted p kind (terminal_prices gauss p n_sims seed))),
     Fin (populationStdDev (discounted p kind (terminal_prices gauss p n_sims seed))
          / sqrt (IZR n_sims))).
Proof.
  intros Hn. unfold mc_value.
  set (d := discounted p kind (terminal_prices gauss p n_sims seed)).
  assert (Hd : d <> []).
  { intros Hnil. apply (f_equal (@List.length R)) in Hnil.
    unfold d in Hnil.
    rewrite discounted_length, terminal_prices_length in Hnil.
    cbn in Hnil. lia. }
  rewrite np_mean_nonempty, np_std_nonempty by assumption.
  unfold np_truediv.
  destruct (Req_dec_T (sqrt (IZR n_sims)) 0) as [Hz | Hz]; [| reflexivity].
  pose proof (sqrt_count_pos n_sims Hn). lra.
Qed.

Lemma discounted_call (p : OptionParams) (ST : list R) :
  discounted p "call" ST
  = map (fun s => exp (- (p.(r) * p.(T))) * Rmax (s - p.(K)) 0) ST.
Proof.
  unfold discounted. apply map_ext. intros s.
  cbn [String.eqb Ascii.eqb Bool.eqb]. now rewrite Ropp_mult_distr_l.
Qed.

Lemma discounted_not_call (p : OptionParams) (kind : string) (ST : list R) :
  kind <> "call"%string ->
  discounted p kind ST
  = map (fun s => exp (- (p.(r) * p.(T))) * Rmax (p.(K) - s) 0) ST.
Proof.
  intros Hk. unfold discounted. apply map_ext. intros s.
  rewrite (not_call kind Hk). now rewrite Ropp_mult_distr_l.
Qed.

Lemma put_is_not_call : "put"%string <> "call"%string.
Proof. discriminate. Qed.

(** C3, as the code has it.  On every parameter set with [S > 0], [K > 0],
    [sigma > 0] and [T > 0], every positive sample count and every seed that
    NumPy accepts, [simulate_paths] returns the [n_sims] terminal prices
    [S exp((r - q - sigma^2/2) T + sigma sqrt(T) Z_i)], and
    [monte_carlo_price] returns the mean of the discounted payoffs together
    with their population standard deviation (denominator [n_sims], not
    [n_sims - 1]) divided by [sqrt n_sims]. *)
Theorem monte_carlo_price_estimate (gauss : origin -> nat -> R)
    (p : OptionParams) (n_sims seed : Z) (g : rng_state) :
  valid p -> (0 < n_sims)%Z -> (0 <= seed < 2 ^ 32)%Z ->
  let ST := terminal_prices gauss p n_sims seed in
  let call_payoffs := map (fun s => exp (- (p.(r) * p.(T))) * Rmax (s - p.(K)) 0) ST in
  let put_payoffs := map (fun s => exp (- (p.(r) * p.(T))) * Rmax (p.(K) - s) 0) ST in
  fst (simulate_paths gauss p n_sims seed g) = Ok ST
  /\ List.length ST = Z.to_nat n_sims
  /\ fst (monte_carlo_price gauss p "call" n_sims seed g)
     = Ok (Fin (mean call_payoffs),
           Fin (populationStdDev call_payoffs / sqrt (IZR n_sims)))
  /\ fst (monte_carlo_price gauss p "put" n_sims seed g)
     = Ok (Fin (mean put_payoffs),
           Fin (populationStdDev put_payoffs / sqrt (IZR n_sims))).
Proof.
  intros (_ & _ & _ & HT) Hn Hseed ST call_payoffs put_payoffs.
  assert (HT' : 0 <= p.(T)) by lra.
  assert (Hn' : (0 <= n_sims)%Z) by lia.
  split; [| split; [| split]].
  - now rewrite simulate_paths_run.
  - apply terminal_prices_length.
  - rewrite monte_carlo_price_run by assumption. cbn [fst].
    rewrite mc_value_positive by assumption.
    now rewrite discounted_call.
  - rewrite monte_carlo_price_run by assumption. cbn [fst].
    rewrite mc_value_positive by assumption.
    now rewrite (discounted_not_call p "put" _ put_is_not_call).
Qed.

Lemma monte_carlo_price_estimate_witness :
  valid example_params /\ (0 < 2)%Z /\ (0 <= 42 < 2 ^ 32)%Z
  /\ fst (simulate_paths seed42_draws example_params 2 42 at_import)
     = Ok (terminal_prices seed42_draws example_params 2 42).
Proof.
  split; [exact valid_example_params |].
  split; [lia |].
  split; [lia |].
  apply (monte_carlo_price_estimate seed42_draws example_params 2 42 at_import).
  - exact valid_example_params.
  - lia.
  - lia.
Defined.

(** Two unequal values have a positive sum of squared deviations. *)
Lemma sum_sq_dev_pair (a b : R) : a <> b -> 0 < sum_sq_dev [a; b].
Proof.
  intros Hab. unfold sum_sq_dev, mean.
  cbn [map np_sum fold_right List.length INR].
  replace ((a + (b + 0)) / (1 + 1)) with ((a + b) / 2) by lra.
  assert (Ha : a - (a + b) / 2 = (a - b) / 2) by lra.
  assert (Hb : b - (a + b) / 2 = - ((a - b) / 2)) by lra.
  rewrite Ha, Hb.
  assert (Hd : a - b <> 0) by lra.
  assert (Hsq : 0 < (a - b) * (a - b)) by (apply Rsqr_pos_lt in Hd; exact Hd).
  lra.
Qed.

(** With the parameters of the [__main__] block and the first two deviates
    of seed 42, the first path ends in the money and the second does not. *)
Lemma example_discounted_payoffs :
  exists a : R,
    0 < a
    /\ discounted example_params "call"
         (terminal_prices seed42_draws example_params 2 42) = [a; 0].
Proof.
  unfold discounted, terminal_prices.
  change (Z.to_nat 2) with 2%nat.
  unfold example_params, seed42_draws.
  cbn [seq map S K r q sigma T String.eqb Ascii.eqb Bool.eqb].
  rewrite sqrt_1.
  set (x0 := (0.05 - 0.02 - 0.2 * 0.2 / 2) * 1 + 0.2 * 1 * 0.4967141530112327).
  set (x1 := (0.05 - 0.02 - 0.2 * 0.2 / 2) * 1 + 0.2 * 1 * -0.13826430117118466).
  assert (H0 : 1 < exp x0).
  { rewrite <- exp_0. apply exp_increasing. unfold x0. lra. }
  assert (H1 : exp x1 < 1).
  { rewrite <- exp_0. apply exp_increasing. unfold x1. lra. }
  pose proof (exp_pos (- (0.05) * 1)) as Hdisc.
  exists (exp (- (0.05) * 1) * (100 * exp x0 - 100)). split.
  - apply Rmult_lt_0_compat; lra.
  - rewrite (Rmax_left (100 * exp x0 - 100) 0) by lra.
    rewrite (Rmax_right (100 * exp x1 - 100) 0) by lra.
    now rewrite Rmult_0_r.
Qed.

(** C3 as stated fails twice: the standard error is not the one of the
    Bessel-corrected standard deviation, and a seed of 33 bits is refused. *)
Lemma monte_carlo_stderr_not_bessel :
  fst (monte_carlo_price seed42_draws example_params "call" 2 42 at_import)
  <> Ok (Fin (mean (discounted example_params "call"
                      (terminal_prices seed42_draws example_params 2 42))),
         Fin (sampleStdDev (discounted example_params "call"
                              (terminal_prices seed42_draws example_params 2 42))
              / sqrt (IZR 2)))
  /\ fst (monte_carlo_price seed42_draws example_params "call" 2 (2 ^ 32) at_import)
     = Raise ValueError.
Proof.
  split.
  - rewrite monte_carlo_price_run
      by (apply seed_ok_42 || lia || (cbn; lra)).
    cbn [fst]. rewrite mc_value_positive by lia.
    destruct example_discounted_payoffs as (a & Ha & ->).
    intros Heq. injection Heq as Heq.
    assert (Hs : 0 < sqrt (IZR 2)) by (apply sqrt_count_pos; lia).
    apply (population_neq_sample [a; 0]).
    + cbn. lia.
    + apply sum_sq_dev_pair. lra.
    + unfold Rdiv in Heq. apply Rmult_eq_reg_r in Heq; [exact Heq |].
      apply Rinv_neq_0_compat. lra.
  - rewrite monte_carlo_price_bad_seed; [reflexivity |].
    unfold seed_ok. lia.
Qed.

(** ** The process-wide generator *)

(** C6 as stated fails: a call of [simulate_paths] leaves the process-wide
    generator reseeded and advanced. *)
Lemma simulate_paths_changes_global_generator :
  snd (simulate_paths seed42_draws example_params 1 42 at_import)
  = {| rng_origin := Seeded 42; rng_drawn := 1 |}
  /\ snd (simulate_paths seed42_draws example_params 1 42 at_import) <> at_import
  /\ snd (monte_carlo_price seed42_draws example_params "call" 1 42 at_import)
     <> at_import.
Proof.
  assert (HT : 0 <= T example_params) by (cbn; lra).
  rewrite simulate_paths_run by (apply seed_ok_42 || lia || exact HT).
  rewrite monte_carlo_price_run by (apply seed_ok_42 || lia || exact HT).
  repeat split; discriminate.
Qed.

(** C6, as the code has it.  A call of [simulate_paths], and so a call of
    [monte_carlo_price], reseeds the process-wide generator with the given
    seed and draws [n_sims] deviates from it.  What the call returns is
    what a generator freshly seeded with that seed returns, whatever the
    generator's state before the call; what the call leaves behind is the
    process-wide generator seeded with that seed and advanced by [n_sims]
    deviates. *)
Theorem simulate_paths_reseeds_global_generator (gauss : origin -> nat -> R)
    (p : OptionParams) (kind : string) (n_sims seed : Z) (g : rng_state) :
  (0 <= seed < 2 ^ 32)%Z -> (0 <= n_sims)%Z ->
  snd (simulate_paths gauss p n_sims seed g)
  = {| rng_origin := Seeded seed; rng_drawn := Z.to_nat n_sims |}
  /\ snd (monte_carlo_price gauss p kind n_sims seed g)
     = {| rng_origin := Seeded seed; rng_drawn := Z.to_nat n_sims |}
  /\ (forall g' : rng_state,
        fst (simulate_paths gauss p n_sims seed g)
        = fst (simulate_paths gauss p n_sims seed g')
        /\ fst (monte_carlo_price gauss p kind n_sims seed g)
           = fst (monte_carlo_price gauss p kind n_sims seed g'))
  /\ (0 <= p.(T) ->
      fst (simulate_paths gauss p n_sims seed g)
      = Ok (terminal_prices gauss p n_sims seed)).
Proof.
  intros Hseed Hn.
  split; [| split; [| split]].
  - destruct (Rlt_dec p.(T) 0) as [HT | HT].
    + now rewrite simulate_paths_negative_T.
    + now rewrite simulate_paths_run by (assumption || lra).
  - destruct (Rlt_dec p.(T) 0) as [HT | HT].
    + now rewrite monte_carlo_price_negative_T.
    + now rewrite monte_carlo_price_run by (assumption || lra).
  - intros g'. split.
    + apply simulate_paths_outcome.
    + apply monte_carlo_price_outcome.
  - intros HT. now rewrite simulate_paths_run.
Qed.

Lemma simulate_paths_reseeds_global_generator_witness :
  (0 <= 42 < 2 ^ 32)%Z /\ (0 <= 100000)%Z
  /\ snd (simulate_paths seed42_draws example_params 100000 42 at_import)
     = {| rng_origin := Seeded 42; rng_drawn := Z.to_nat 100000 |}.
Proof.
  split; [lia |].
  split; [lia |].
  apply (simulate_paths_reseeds_global_generator
           seed42_draws example_params "call" 100000 42 at_import); lia.
Defined.

(** C8. On every parameter set with [S > 0], [K > 0], [sigma > 0] and
    [T > 0], every kind, every positive sample count and every seed, two
    calls of [monte_carlo_price] with the same arguments have the same
    outcome, whatever the state of the process-wide generator at each call;
    in particular a call repeated right after the first does what the first
    did.  When the seed is one that NumPy accepts the outcome is a pair of
    a price and a standard error. *)
Theorem monte_carlo_price_reproducible (gauss : origin -> nat -> R)
    (p : OptionParams) (kind : string) (n_sims seed : Z) (g g' : rng_state) :
  valid p -> (0 < n_sims)%Z ->
  fst (monte_carlo_price gauss p kind n_sims seed g)
  = fst (monte_carlo_price gauss p kind n_sims seed g')
  /\ fst (monte_carlo_price gauss p kind n_sims seed
            (snd (monte_carlo_price gauss p kind n_sims seed g)))
     = fst (monte_carlo_price gauss p kind n_sims seed g)
  /\ ((0 <= seed < 2 ^ 32)%Z ->
      exists price stderr : R,
        fst (monte_carlo_price gauss p kind n_sims seed g)
        = Ok (Fin price, Fin stderr)).
Proof.
  intros (_ & _ & _ & HT) Hn.
  split; [apply monte_carlo_price_outcome |].
  split; [apply monte_carlo_price_outcome |].
  intros Hseed.
  exists (mean (discounted p kind (terminal_prices gauss p n_sims seed))),
         (populationStdDev (discounted p kind (terminal_prices gauss p n_sims seed))
          / sqrt (IZR n_sims)).
  rewrite <- mc_value_positive by assumption.
  now rewrite monte_carlo_price_run by (assumption || lia || lra).
Qed.

Lemma monte_carlo_price_reproducible_witness :
  valid example_params /\ (0 < 100000)%Z
  /\ fst (monte_carlo_price seed42_draws example_params "call" 100000 42 at_import)
     = fst (monte_carlo_price seed42_draws example_params "call" 100000 42
              {| rng_origin := Seeded 7; rng_drawn := 3 |}).
Proof.
  split; [exact valid_example_params |].
  split; [lia |].
  apply (monte_carlo_price_reproducible seed42_draws example_params "call"
           100000 42 at_import {| rng_origin := Seeded 7; rng_drawn := 3 |}).
  - exact valid_example_params.
  - lia.
Defined.

(** ** Parameters outside the domain of the formulas *)

Lemma d1_raises (p : OptionParams) (e : exn) :
  d1 p = Raise e -> e = ValueError \/ e = ZeroDivisionError.
Proof.
  unfold d1, py_div, py_log, py_sqrt.
  destruct (Req_dec_T p.(K) 0); cbn [bind]; [intros [= <-]; now right |].
  destruct (Rlt_dec 0 (p.(S) / p.(K))); cbn [bind]; [| intros [= <-]; now left].
  destruct (Rle_dec 0 p.(T)); cbn [bind]; [| intros [= <-]; now left].
  destruct (Req_dec_T (p.(sigma) * sqrt p.(T)) 0); [intros [= <-]; now right |].
  discriminate.
Qed.

Lemma ops_never_raise (p : OptionParams) (kind : string) (e : exn) :
  e <> ValueError -> e <> ZeroDivisionError ->
  Forall (fun c => c <> Raise e) (analytic_ops p kind).
Proof.
  intros Hv Hz. destruct (d1 p) as [v | e1] eqn:Hd1.
  - assert (Hsucc : succeeds (d1 p)) by (now exists v).
    (* [d1] returned: its guards give the side conditions of [ops_succeed] *)
    assert (Hside : p.(S) <> 0 /\ 0 < p.(T) /\ p.(sigma) <> 0).
    { revert Hd1. unfold d1, py_div, py_log, py_sqrt.
      destruct (Req_dec_T p.(K) 0) as [| HK]; cbn [bind]; [discriminate |].
      destruct (Rlt_dec 0 (p.(S) / p.(K))) as [Hx |]; cbn [bind]; [| discriminate].
      destruct (Rle_dec 0 p.(T)) as [HT |]; cbn [bind]; [| discriminate].
      destruct (Req_dec_T (p.(sigma) * sqrt p.(T)) 0) as [| Hden]; [discriminate |].
      intros _. repeat split.
      - intros HS. rewrite HS in Hx. unfold Rdiv in Hx. lra.
      - destruct HT as [HT | HT]; [exact HT |].
        exfalso. apply Hden. rewrite <- HT, sqrt_0. ring.
      - intros Hs. apply Hden. rewrite Hs. ring. }
    destruct Hside as (HS & HT & Hsig).
    pose proof (ops_succeed p kind HS HT Hsig Hsucc) as Hok.
    eapply Forall_impl; [| exact Hok].
    intros c [a ->]. discriminate.
  - pose proof (ops_raise p kind e1 Hd1) as Herr.
    apply d1_raises in Hd1.
    eapply Forall_impl; [| exact Herr].
    intros c <- [= ->]. destruct Hd1; contradiction.
Qed.

Lemma monte_carlo_only_value_error (gauss : origin -> nat -> R)
    (p : OptionParams) (kind : string) (n_sims seed : Z) (g : rng_state) (e : exn) :
  e <> ValueError ->
  fst (simulate_paths gauss p n_sims seed g) <> Raise e
  /\ fst (monte_carlo_price gauss p kind n_sims seed g) <> Raise e.
Proof.
  intros He.
  destruct (Z_le_dec 0 seed) as [H0 | H0];
    [destruct (Z_lt_dec seed (2 ^ 32)) as [H1 | H1] |].
  - assert (Hseed : seed_ok seed) by (split; assumption).
    destruct (Z_lt_dec n_sims 0) as [Hn | Hn].
    + rewrite simulate_paths_negative, monte_carlo_price_negative by assumption.
      split; intros [= <-]; contradiction.
    + destruct (Rlt_dec p.(T) 0) as [HT | HT].
      * rewrite simulate_paths_negative_T, monte_carlo_price_negative_T
          by (assumption || lia).
        split; intros [= <-]; contradiction.
      * rewrite simulate_paths_run, monte_carlo_price_run
          by (assumption || lia || lra).
        split; discriminate.
  - rewrite simulate_paths_bad_seed, monte_carlo_price_bad_seed
      by (unfold seed_ok; lia).
    split; intros [= <-]; contradiction.
  - rewrite simulate_paths_bad_seed, monte_carlo_price_bad_seed
      by (unfold seed_ok; lia).
    split; intros [= <-]; contradiction.
Qed.

(** C4 as stated fails: with no volatility the analytical price stops on
    the float division, and the simulation and the Monte Carlo price return
    a value. *)
Lemma zero_volatility_outcomes :
  black_scholes_price flat_params "call" = Raise ZeroDivisionError
  /\ black_scholes_price flat_params "call" <> Raise InvalidParameterError
  /\ succeeds (fst (simulate_paths seed42_draws flat_params 2 42 at_import))
  /\ succeeds (fst (monte_carlo_price seed42_draws flat_params "call" 2 42 at_import)).
Proof.
  assert (HT : 0 <= T flat_params) by (cbn; lra).
  assert (Hd1 : d1 flat_params = Raise ZeroDivisionError).
  { apply d1_zero_denominator; cbn; lra. }
  pose proof (ops_raise flat_params "call" _ Hd1) as Hops.
  apply Forall_inv in Hops.
  split; [now rewrite <- Hops |].
  split; [now rewrite <- Hops |].
  rewrite simulate_paths_run by (apply seed_ok_42 || lia || exact HT).
  rewrite monte_carlo_price_run by (apply seed_ok_42 || lia || exact HT).
  split; eexists; reflexivity.
Qed.

(** C4, as the code has it.  When [S <= 0], [K <= 0], [sigma <= 0] or
    [T <= 0], no operation raises [InvalidParameterError]: nothing is
    validated.  The price and the Greeks stop where [d1] stops, on
    [ZeroDivisionError] when [K = 0], else on [ValueError] when
    [S / K <= 0], else on [ValueError] when [T < 0], else on
    [ZeroDivisionError] when [sigma = 0] or [T = 0], and return a value
    otherwise.  [simulate_paths] and [monte_carlo_price], given a seed that
    NumPy accepts and a sample count that is not negative, stop on
    [ValueError] when [T < 0] and return a value otherwise. *)
Theorem invalid_parameters_outcomes (gauss : origin -> nat -> R)
    (p : OptionParams) (kind : string) (n_sims seed : Z) (g : rng_state) :
  p.(S) <= 0 \/ p.(K) <= 0 \/ p.(sigma) <= 0 \/ p.(T) <= 0 ->
  Forall (fun c => c <> Raise InvalidParameterError) (analytic_ops p kind)
  /\ fst (simulate_paths gauss p n_sims seed g) <> Raise InvalidParameterError
  /\ fst (monte_carlo_price gauss p kind n_sims seed g) <> Raise InvalidParameterError
  /\ (p.(K) = 0 -> Forall (eq (Raise ZeroDivisionError)) (analytic_ops p kind))
  /\ (p.(K) <> 0 -> p.(S) / p.(K) <= 0 ->
      Forall (eq (Raise ValueError)) (analytic_ops p kind))
  /\ (p.(K) <> 0 -> 0 < p.(S) / p.(K) -> p.(T) < 0 ->
      Forall (eq (Raise ValueError)) (analytic_ops p kind))
  /\ (p.(K) <> 0 -> 0 < p.(S) / p.(K) -> 0 <= p.(T) ->
      p.(sigma) = 0 \/ p.(T) = 0 ->
      Forall (eq (Raise ZeroDivisionError)) (analytic_ops p kind))
  /\ (p.(K) <> 0 -> 0 < p.(S) / p.(K) -> 0 < p.(T) -> p.(sigma) <> 0 ->
      Forall succeeds (analytic_ops p kind))
  /\ ((0 <= seed < 2 ^ 32)%Z -> (0 <= n_sims)%Z -> p.(T) < 0 ->
      fst (simulate_paths gauss p n_sims seed g) = Raise ValueError
      /\ fst (monte_carlo_price gauss p kind n_sims seed g) = Raise ValueError)
  /\ ((0 <= seed < 2 ^ 32)%Z -> (0 <= n_sims)%Z -> 0 <= p.(T) ->
      succeeds (fst (simulate_paths gauss p n_sims seed g))
      /\ succeeds (fst (monte_carlo_price gauss p kind n_sims seed g))).
Proof.
  intros _.
  split; [apply ops_never_raise; discriminate |].
  split; [apply (monte_carlo_only_value_error gauss p kind); discriminate |].
  split; [apply (monte_carlo_only_value_error gauss p kind); discriminate |].
  split; [intros HK; apply ops_raise; now apply d1_zero_strike |].
  split; [intros HK Hx; apply ops_raise; now apply d1_log_domain |].
  split; [intros HK Hx HT; apply ops_raise; now apply d1_negative_maturity |].
  split; [intros HK Hx HT Hz; apply ops_raise; now apply d1_zero_denominator |].
  split.
  { intros HK Hx HT Hsig. apply ops_succeed; try assumption.
    - intros HS. rewrite HS in Hx. unfold Rdiv in Hx. lra.
    - eexists. now apply d1_defined. }
  split.
  - intros Hseed Hn HT.
    now rewrite simulate_paths_negative_T, monte_carlo_price_negative_T.
  - intros Hseed Hn HT.
    rewrite simulate_paths_run, monte_carlo_price_run by assumption.
    split; eexists; reflexivity.
Qed.

Lemma invalid_parameters_outcomes_witness :
  sigma flat_params <= 0
  /\ Forall (eq (Raise ZeroDivisionError)) (analytic_ops flat_params "put")
  /\ succeeds (fst (monte_carlo_price seed42_draws flat_params "put" 100 42 at_import)).
Proof.
  assert (Hsig : sigma flat_params <= 0) by (cbn; lra).
  destruct (invalid_parameters_outcomes seed42_draws flat_params "put" 100 42
              at_import (or_intror (or_intror (or_introl Hsig))))
    as (_ & _ & _ & _ & _ & _ & Hzero & _ & _ & Hmc).
  split; [exact Hsig |].
  split.
  - apply Hzero; cbn; lra.
  - apply Hmc; cbn; (lia || lra).
Defined.

(** ** The option kind *)

Lemma monte_carlo_price_not_call (gauss : origin -> nat -> R) (p : OptionParams)
    (kind : string) (n_sims seed : Z) (g : rng_state) :
  kind <> "call"%string ->
  monte_carlo_price gauss p kind n_sims seed g
  = monte_carlo_price gauss p "put" n_sims seed g.
Proof.
  intros Hk. unfold monte_carlo_price. now rewrite (not_call kind Hk).
Qed.

Lemma banana_is_not_call : "banana"%string <> "call"%string.
Proof. discriminate. Qed.

Lemma banana_is_not_put : "banana"%string <> "put"%string.
Proof. discriminate. Qed.

(** C5 as stated fails: an unrecognised kind is priced, as a put. *)
Lemma banana_is_priced :
  black_scholes_price example_params "banana"
  = Ok (formulas.putPrice 100 100 0.05 0.02 0.2 1)
  /\ black_scholes_price example_params "banana" <> Raise UnsupportedOptionKindError
  /\ succeeds (fst (monte_carlo_price seed42_draws example_params "banana" 2 42 at_import)).
Proof.
  assert (Hbs : black_scholes_price example_params "banana"
                = Ok (formulas.putPrice 100 100 0.05 0.02 0.2 1))
    by exact (put_price_valid example_params valid_example_params).
  split; [exact Hbs |].
  split; [rewrite Hbs; discriminate |].
  rewrite monte_carlo_price_run by (apply seed_ok_42 || lia || (cbn; lra)).
  eexists. reflexivity.
Qed.

(** C5, as the code has it.  On every parameter set with [S > 0], [K > 0],
    [sigma > 0] and [T > 0], a kind that is neither ["call"] nor ["put"]
    raises nothing: the price, delta, theta and rho are the closed-form put
    values, and the Monte Carlo price, for a positive sample count and a
    seed that NumPy accepts, is the estimate over the put payoffs. *)
Theorem unrecognised_kind_is_priced_as_put (gauss : origin -> nat -> R)
    (p : OptionParams) (kind : string) (n_sims seed : Z) (g : rng_state) :
  valid p -> kind <> "call"%string -> kind <> "put"%string ->
  (0 < n_sims)%Z -> (0 <= seed < 2 ^ 32)%Z ->
  let put_payoffs :=
    map (fun s => exp (- (p.(r) * p.(T))) * Rmax (p.(K) - s) 0)
        (terminal_prices gauss p n_sims seed) in
  black_scholes_price p kind
  = Ok (formulas.putPrice p.(S) p.(K) p.(r) p.(q) p.(sigma) p.(T))
  /\ delta p kind = Ok (formulas.delta_put p.(S) p.(K) p.(r) p.(q) p.(sigma) p.(T))
  /\ theta p kind = Ok (formulas.theta_put p.(S) p.(K) p.(r) p.(q) p.(sigma) p.(T))
  /\ rho p kind = Ok (formulas.rho_put p.(S) p.(K) p.(r) p.(q) p.(sigma) p.(T))
  /\ fst (monte_carlo_price gauss p kind n_sims seed g)
     = Ok (Fin (mean put_payoffs),
           Fin (populationStdDev put_payoffs / sqrt (IZR n_sims))).
Proof.
  intros Hp Hcall _ Hn Hseed put_payoffs.
  pose proof Hp as (_ & _ & _ & HT).
  pose proof (ops_not_call p kind Hcall) as Hops.
  unfold analytic_ops in Hops.
  injection Hops as Hprice Hdelta Htheta Hrho.
  rewrite Hprice, Hdelta, Htheta, Hrho.
  repeat split.
  - now apply put_price_valid.
  - now apply delta_put_valid.
  - now apply theta_put_valid.
  - now apply rho_put_valid.
  - rewrite monte_carlo_price_run by (assumption || lia || lra). cbn [fst].
    rewrite mc_value_positive by assumption.
    now rewrite discounted_not_call.
Qed.

Lemma unrecognised_kind_is_priced_as_put_witness :
  valid example_params
  /\ "banana"%string <> "call"%string /\ "banana"%string <> "put"%string
  /\ (0 < 100000)%Z /\ (0 <= 42 < 2 ^ 32)%Z
  /\ black_scholes_price example_params "banana"
     = Ok (formulas.putPrice 100 100 0.05 0.02 0.2 1).
Proof.
  split; [exact valid_example_params |].
  split; [exact banana_is_not_call |].
  split; [exact banana_is_not_put |].
  split; [lia |].
  split; [lia |].
  apply (unrecognised_kind_is_priced_as_put seed42_draws example_params "banana"
           100000 42 at_import).
  - exact valid_example_params.
  - exact banana_is_not_call.
  - exact banana_is_not_put.
  - lia.
  - lia.
Defined.

(** C10. For every parameter set and every kind other than ["call"],
    [black_scholes_price], [delta], [theta], [rho] and [monte_carlo_price]
    behave as they do for ["put"]: same value or same exception, and for
    [monte_carlo_price] the same generator left behind.  None of them
    raises [UnsupportedOptionKindError], and on a parameter set with
    [S > 0], [K > 0], [sigma > 0] and [T > 0] all of them return a value
    ([monte_carlo_price] for a sample count that is not negative and a
    seed that NumPy accepts). *)
Theorem kind_other_than_call_is_put (gauss : origin -> nat -> R)
    (p : OptionParams) (kind : string) :
  kind <> "call"%string ->
  black_scholes_price p kind = put_price p
  /\ black_scholes_price p kind = black_scholes_price p "put"
  /\ delta p kind = delta p "put"
  /\ theta p kind = theta p "put"
  /\ rho p kind = rho p "put"
  /\ (forall (n_sims seed : Z) (g : rng_state),
        monte_carlo_price gauss p kind n_sims seed g
        = monte_carlo_price gauss p "put" n_sims seed g)
  /\ Forall (fun c => c <> Raise UnsupportedOptionKindError) (analytic_ops p kind)
  /\ (forall (n_sims seed : Z) (g : rng_state),
        fst (monte_carlo_price gauss p kind n_sims seed g)
        <> Raise UnsupportedOptionKindError)
  /\ (valid p ->
      Forall succeeds (analytic_ops p kind)
      /\ forall (n_sims seed : Z) (g : rng_state),
           (0 <= n_sims)%Z -> (0 <= seed < 2 ^ 32)%Z ->
           succeeds (fst (monte_carlo_price gauss p kind n_sims seed g))).
Proof.
  intros Hk.
  pose proof (ops_not_call p kind Hk) as Hops.
  unfold analytic_ops in Hops.
  injection Hops as Hprice Hdelta Htheta Hrho.
  split; [unfold black_scholes_price; now rewrite (not_call kind Hk) |].
  do 4 (split; [assumption |]).
  split; [intros n_sims seed g; now apply monte_carlo_price_not_call |].
  split; [apply ops_never_raise; discriminate |].
  split.
  - intros n_sims seed g.
    apply (monte_carlo_only_value_error gauss p kind). discriminate.
  - intros Hp. pose proof Hp as (HS & HK & Hsig & HT). split.
    + apply ops_succeed; try lra.
      eexists. now apply d1_valid.
    + intros n_sims seed g Hn Hseed.
      rewrite monte_carlo_price_run by (assumption || lra).
      eexists. reflexivity.
Qed.

Lemma kind_other_than_call_is_put_witness :
  "banana"%string <> "call"%string
  /\ black_scholes_price example_params "banana" = put_price example_params.
Proof.
  split; [exact banana_is_not_call |].
  apply (kind_other_than_call_is_put seed42_draws example_params "banana").
  exact banana_is_not_call.
Defined.

(** ** The convergence analysis *)

Lemma black_scholes_price_valid (p : OptionParams) (kind : string) :
  valid p -> succeeds (black_scholes_price p kind).
Proof.
  intros Hp. unfold black_scholes_price, succeeds.
  destruct (kind =? "call")%string.
  - eexists. now apply call_price_valid.
  - eexists. now apply put_price_valid.
Qed.

Import observed.

(** Forgetting the log gives [compare_mc_vs_bs] back, outcome and generator,
    on every input. *)
Lemma compare_loop_logged_erase (gauss : origin -> nat -> R) (p : OptionParams)
    (kind : string) (n_sims_list : list Z) :
  forall (mc_prices mc_errors : list np_float) (g : rng_state) (log : list call),
    (fst (compare_loop_logged gauss p kind n_sims_list mc_prices mc_errors (g, log)),
     fst (snd (compare_loop_logged gauss p kind n_sims_list mc_prices mc_errors
                 (g, log))))
    = compare_loop gauss p kind n_sims_list mc_prices mc_errors g.
Proof.
  induction n_sims_list as [| n rest IH]; intros mc_prices mc_errors g log.
  - reflexivity.
  - cbn [compare_loop compare_loop_logged]. unfold bindL, bindM, logged. cbn [fst snd].
    destruct (monte_carlo_price gauss p kind n default_seed g) as [[pe | e] g1].
    + apply IH.
    + reflexivity.
Qed.

Lemma compare_mc_vs_bs_logged_erase (gauss : origin -> nat -> R) (p : OptionParams)
    (kind : string) (n_sims_list : list Z) (g : rng_state) (log : list call) :
  (fst (compare_mc_vs_bs_logged gauss p kind n_sims_list (g, log)),
   fst (snd (compare_mc_vs_bs_logged gauss p kind n_sims_list (g, log))))
  = compare_mc_vs_bs gauss p kind n_sims_list g.
Proof.
  unfold compare_mc_vs_bs_logged, compare_mc_vs_bs, bindL, bindM, logged, lift,
    retL, ret. cbn [fst snd].
  destruct (black_scholes_price p kind) as [bs | e]; [| reflexivity].
  pose proof (compare_loop_logged_erase gauss p kind n_sims_list [] [] g
                (log ++ [BlackScholesPrice p kind])) as Hloop.
  destruct (compare_loop_logged gauss p kind n_sims_list [] [] _)
    as [[arrays | e] [g1 log1]];
    destruct (compare_loop gauss p kind n_sims_list [] [] g) as [[arrays' | e'] g1'];
    cbn [fst snd] in Hloop; try discriminate;
    injection Hloop as <- <-; reflexivity.
Qed.

(** The log of the loop: one entry per sample count, in the order of the
    list. *)
Lemma compare_loop_logged_log (gauss : origin -> nat -> R) (p : OptionParams)
    (kind : string) (n_sims_list : list Z) :
  0 <= p.(T) -> Forall (fun n => 0 <= n)%Z n_sims_list ->
  forall (mc_prices mc_errors : list np_float) (g : rng_state) (log : list call),
    exists (arrays : list np_float * list np_float) (g' : rng_state),
      compare_loop_logged gauss p kind n_sims_list mc_prices mc_errors (g, log)
      = (Ok arrays,
         (g', log ++ map (fun n => MonteCarloPrice p kind n default_seed)
                         n_sims_list)).
Proof.
  intros HT Hpos. induction Hpos as [| n rest Hn Hrest IH];
    intros mc_prices mc_errors g log.
  - exists (mc_prices, mc_errors), g. cbn. now rewrite app_nil_r.
  - cbn [compare_loop_logged]. unfold bindL, logged. cbn [fst snd].
    rewrite monte_carlo_price_run by (assumption || apply seed_ok_default).
    destruct (IH (mc_prices ++ [fst (mc_value gauss p kind n default_seed)])
                 (mc_errors ++ [snd (mc_value gauss p kind n default_seed)])
                 (after_call n default_seed)
                 (log ++ [MonteCarloPrice p kind n default_seed]))
      as (arrays & g' & ->).
    exists arrays, g'. cbn [map]. now rewrite <- app_assoc.
Qed.

Lemma monte_carlo_calls_not_analytical (p : OptionParams) (kind : string)
    (n_sims_list : list Z) :
  filter is_analytical
    (map (fun n => MonteCarloPrice p kind n default_seed) n_sims_list) = [].
Proof. induction n_sims_list as [| n rest IH]; [reflexivity | exact IH]. Qed.

(** C9 as stated fails: the tuple returned has the analytical price, a
    number, where the claim has the sequence of sample counts, so the
    returned components are not four sequences of the length of the input. *)
Lemma compare_mc_vs_bs_returns_the_price_first :
  exists (bs_price : R) (mc_prices mc_errors biases : list np_float),
    fst (compare_mc_vs_bs seed42_draws example_params "call" [100; 500]%Z at_import)
    = Ok (bs_price, mc_prices, mc_errors, biases)
    /\ black_scholes_price example_params "call" = Ok bs_price
    /\ returned_tuple (bs_price, mc_prices, mc_errors, biases)
       = [PyFloat bs_price; NdArray mc_prices; NdArray mc_errors; NdArray biases]
    /\ ~ Forall (sequence_of_length 2)
           (returned_tuple (bs_price, mc_prices, mc_errors, biases)).
Proof.
  destruct (black_scholes_price_valid example_params "call" valid_example_params)
    as [bs Hbs].
  exists bs, (mc_prices_of seed42_draws example_params "call" [100; 500]%Z),
    (mc_errors_of seed42_draws example_params "call" [100; 500]%Z),
    (map (fun m => np_sub m bs)
         (mc_prices_of seed42_draws example_params "call" [100; 500]%Z)).
  split.
  { apply compare_mc_vs_bs_run; [cbn; lra | repeat constructor; lia | exact Hbs]. }
  split; [exact Hbs |].
  split; [reflexivity |].
  intros Hall. apply Forall_inv in Hall. exact Hall.
Qed.

(** C9, as the code has it.  On every parameter set with [S > 0], [K > 0],
    [sigma > 0] and [T > 0], every kind and every list of positive sample
    counts, [compare_mc_vs_bs] asks for the analytical price exactly once,
    before the simulations, which follow in the order of the list with the
    default seed 42.  It returns a tuple of four components: first the
    analytical price, a number (the sample counts are not returned), then
    three arrays of the length of the list, which hold at each index the
    Monte Carlo price and the standard error that [monte_carlo_price]
    returns for the sample count at that index, and the bias, which is that
    price minus the analytical price. *)
Theorem compare_mc_vs_bs_series (gauss : origin -> nat -> R)
    (p : OptionParams) (kind : string) (n_sims_list : list Z) (g : rng_state) :
  valid p -> Forall (fun n => 0 < n)%Z n_sims_list ->
  exists (bs_price : R) (mc_prices mc_errors biases : list np_float),
    fst (compare_mc_vs_bs gauss p kind n_sims_list g)
    = Ok (bs_price, mc_prices, mc_errors, biases)
    /\ fst (compare_mc_vs_bs_logged gauss p kind n_sims_list (g, []))
       = Ok (bs_price, mc_prices, mc_errors, biases)
    /\ snd (snd (compare_mc_vs_bs_logged gauss p kind n_sims_list (g, [])))
       = BlackScholesPrice p kind
         :: map (fun n => MonteCarloPrice p kind n 42) n_sims_list
    /\ analytical_calls
         (snd (snd (compare_mc_vs_bs_logged gauss p kind n_sims_list (g, []))))
       = 1%nat
    /\ black_scholes_price p kind = Ok bs_price
    /\ returned_tuple (bs_price, mc_prices, mc_errors, biases)
       = [PyFloat bs_price; NdArray mc_prices; NdArray mc_errors; NdArray biases]
    /\ Forall (sequence_of_length (List.length n_sims_list))
         [NdArray mc_prices; NdArray mc_errors; NdArray biases]
    /\ forall (i : nat) (n : Z),
         nth_error n_sims_list i = Some n ->
         exists price stderr : R,
           (forall g' : rng_state,
              fst (monte_carlo_price gauss p kind n 42 g')
              = Ok (Fin price, Fin stderr))
           /\ nth_error mc_prices i = Some (Fin price)
           /\ nth_error mc_errors i = Some (Fin stderr)
           /\ nth_error biases i = Some (Fin (price - bs_price)).
Proof.
  intros Hp Hpos. pose proof Hp as (_ & _ & _ & HT).
  assert (HT' : 0 <= p.(T)) by lra.
  destruct (black_scholes_price_valid p kind Hp) as [bs_price Hbs].
  assert (Hpos' : Forall (fun n => 0 <= n)%Z n_sims_list)
    by (eapply Forall_impl; [| exact Hpos]; cbn; intros; lia).
  pose proof (compare_mc_vs_bs_run gauss p kind n_sims_list bs_price g HT' Hpos' Hbs)
    as Hrun.
  pose proof (compare_mc_vs_bs_logged_erase gauss p kind n_sims_list g []) as Herase.
  assert (Hlog : snd (snd (compare_mc_vs_bs_logged gauss p kind n_sims_list (g, [])))
                 = BlackScholesPrice p kind
                   :: map (fun n => MonteCarloPrice p kind n 42) n_sims_list).
  { unfold compare_mc_vs_bs_logged, bindL, logged, lift, retL. cbn [fst snd].
    rewrite Hbs.
    destruct (compare_loop_logged_log gauss p kind n_sims_list HT' Hpos' [] [] g
                ([] ++ [BlackScholesPrice p kind])) as (arrays & g' & ->).
    reflexivity. }
  exists bs_price, (mc_prices_of gauss p kind n_sims_list),
    (mc_errors_of gauss p kind n_sims_list),
    (map (fun m => np_sub m bs_price) (mc_prices_of gauss p kind n_sims_list)).
  split; [exact Hrun |].
  split; [rewrite <- Hrun, <- Herase; reflexivity |].
  split; [exact Hlog |].
  split.
  { rewrite Hlog. unfold analytical_calls. cbn [filter is_analytical].
    change 42%Z with default_seed.
    now rewrite monte_carlo_calls_not_analytical. }
  split; [exact Hbs |].
  split; [reflexivity |].
  unfold mc_prices_of, mc_errors_of.
  split.
  { repeat constructor; cbn [sequence_of_length]; now rewrite !length_map. }
  intros i n Hi.
  assert (Hn : (0 < n)%Z).
  { rewrite Forall_forall in Hpos. apply Hpos. eapply nth_error_In. exact Hi. }
  exists (mean (discounted p kind (terminal_prices gauss p n 42))),
         (populationStdDev (discounted p kind (terminal_prices gauss p n 42))
          / sqrt (IZR n)).
  rewrite <- mc_value_positive by assumption.
  split; [| split; [| split]].
  - intros g'. rewrite monte_carlo_price_run
      by (apply seed_ok_42 || lia || lra).
    cbn [fst]. now rewrite mc_value_positive.
  - rewrite nth_error_map, Hi. cbn [option_map].
    now rewrite mc_value_positive.
  - rewrite nth_error_map, Hi. cbn [option_map].
    now rewrite mc_value_positive.
  - rewrite !nth_error_map, Hi. cbn [option_map].
    now rewrite mc_value_positive.
Qed.

Lemma compare_mc_vs_bs_series_witness :
  valid example_params
  /\ Forall (fun n => 0 < n)%Z [100; 500; 2000; 10000; 50000; 100000]%Z
  /\ exists (bs_price : R) (mc_prices mc_errors biases : list np_float),
       fst (compare_mc_vs_bs seed42_draws example_params "call"
              [100; 500; 2000; 10000; 50000; 100000]%Z at_import)
       = Ok (bs_price, mc_prices, mc_errors, biases)
       /\ analytical_calls
            (snd (snd (compare_mc_vs_bs_logged seed42_draws example_params "call"
                         [100; 500; 2000; 10000; 50000; 100000]%Z
                         (at_import, []))))
          = 1%nat
       /\ Forall (sequence_of_length 6)
            [NdArray mc_prices; NdArray mc_errors; NdArray biases].
Proof.
  assert (Hpos : Forall (fun n => 0 < n)%Z [100; 500; 2000; 10000; 50000; 100000]%Z)
    by (repeat constructor; lia).
  split; [exact valid_example_params |].
  split; [exact Hpos |].
  destruct (compare_mc_vs_bs_series seed42_draws example_params "call"
              [100; 500; 2000; 10000; 50000; 100000]%Z at_import
              valid_example_params Hpos)
    as (bs_price & mc_prices & mc_errors & biases
        & Hrun & _ & _ & Hcalls & _ & _ & Hlen & _).
  exists bs_price, mc_prices, mc_errors, biases.
  split; [exact Hrun |]. split; [exact Hcalls | exact Hlen].
Defined.

(** * Further properties of the code *)

Import transforms.

(** ** The normal distribution functions *)

Lemma sqrt_2PI_pos : 0 < sqrt (2 * PI).
Proof. apply sqrt_lt_R0. pose proof PI_RGT_0. lra. Qed.

Lemma std_norm_pdf_pos (x : R) : 0 < std_norm_pdf x.
Proof.
  unfold std_norm_pdf. apply Rmult_lt_0_compat.
  - apply Rdiv_lt_0_compat; [lra | apply sqrt_2PI_pos].
  - apply exp_pos.
Qed.

(** X1. [std_norm_cdf] is symmetric about the origin: the values at [x] and
    at [-x] add up to one, and the value at the origin is one half. *)
Theorem std_norm_cdf_symmetry (x : R) :
  std_norm_cdf (- x) = 1 - std_norm_cdf x /\ std_norm_cdf 0 = / 2.
Proof.
  rewrite !std_norm_cdf_N. split.
  - apply N_symmetric.
  - apply N_0.
Qed.

(** X2. [std_norm_pdf] is even and positive, and it is largest at the
    origin, where it is [1 / sqrt (2 pi)]. *)
Theorem std_norm_pdf_shape (x : R) :
  std_norm_pdf (- x) = std_norm_pdf x
  /\ 0 < std_norm_pdf x
  /\ std_norm_pdf x <= std_norm_pdf 0
  /\ std_norm_pdf 0 = 1 / sqrt (2 * PI).
Proof.
  assert (H0 : std_norm_pdf 0 = 1 / sqrt (2 * PI)).
  { unfold std_norm_pdf. replace (-0.5 * 0 ^ 2) with 0 by lra.
    rewrite exp_0. ring. }
  split; [| split; [| split]].
  - unfold std_norm_pdf. f_equal. f_equal. ring.
  - apply std_norm_pdf_pos.
  - rewrite H0. unfold std_norm_pdf.
    rewrite <- (Rmult_1_r (1 / sqrt (2 * PI))) at 2.
    apply Rmult_le_compat_l.
    + apply Rlt_le, Rdiv_lt_0_compat; [lra | apply sqrt_2PI_pos].
    + assert (Hx : -0.5 * x ^ 2 <= 0) by (pose proof (pow2_ge_0 x); lra).
      destruct Hx as [Hx | Hx].
      * rewrite <- exp_0. now apply Rlt_le, exp_increasing.
      * rewrite Hx, exp_0. lra.
  - exact H0.
Qed.

(** ** Relations between the Greeks *)

(** X3. On valid parameters gamma and vega are positive, and
    [vega = S^2 sigma T gamma]. *)
Theorem gamma_vega_positive_and_related (p : OptionParams) :
  valid p ->
  exists g v : R,
    gamma p = Ok g /\ vega p = Ok v
    /\ 0 < g /\ 0 < v
    /\ v = p.(S) * p.(S) * p.(sigma) * p.(T) * g.
Proof.
  intros Hp. pose proof Hp as (HS & HK & Hsig & HT).
  pose proof (sqrt_T_pos p HT) as Hs.
  pose proof (exp_pos (- (p.(q) * p.(T)))) as He.
  set (d := formulas.d1_closed p.(S) p.(K) p.(r) p.(q) p.(sigma) p.(T)).
  assert (Hn : 0 < formulas.n d)
    by (rewrite <- std_norm_pdf_n; apply std_norm_pdf_pos).
  exists (formulas.gamma_closed p.(S) p.(K) p.(r) p.(q) p.(sigma) p.(T)),
         (formulas.vega_closed p.(S) p.(K) p.(r) p.(q) p.(sigma) p.(T)).
  split; [now apply gamma_valid |].
  split; [now apply vega_valid |].
  unfold formulas.gamma_closed, formulas.vega_closed. fold d.
  assert (Hen : 0 < exp (- (p.(q) * p.(T))) * formulas.n d)
    by (apply Rmult_lt_0_compat; assumption).
  assert (Hden : 0 < p.(S) * p.(sigma) * sqrt p.(T))
    by (apply Rmult_lt_0_compat; [apply Rmult_lt_0_compat |]; assumption).
  split; [| split].
  - now apply Rdiv_lt_0_compat.
  - rewrite (Rmult_assoc p.(S)).
    apply Rmult_lt_0_compat; [apply Rmult_lt_0_compat |]; assumption.
  - assert (Hq : p.(T) / sqrt p.(T) = sqrt p.(T)).
    { apply (Rmult_eq_reg_r (sqrt p.(T))); [| lra].
      unfold Rdiv. rewrite Rmult_assoc, Rinv_l, Rmult_1_r by lra.
      symmetry. apply sqrt_sqrt. lra. }
    rewrite <- Hq at 1. field. lra.
Qed.

Lemma gamma_vega_positive_and_related_witness :
  valid example_params
  /\ exists g v : R,
       gamma example_params = Ok g /\ vega example_params = Ok v
       /\ 0 < g /\ 0 < v /\ v = 100 * 100 * 0.2 * 1 * g.
Proof.
  split; [exact valid_example_params |].
  exact (gamma_vega_positive_and_related example_params valid_example_params).
Defined.

(** X4. On valid parameters the Greeks of a call and of a put differ as
    put-call parity requires: the deltas by [exp(-qT)], the rhos by
    [K T exp(-rT)], the thetas by [q S exp(-qT) - r K exp(-rT)]. *)
Theorem greeks_parity (p : OptionParams) :
  valid p ->
  exists dc dp tc tp rc rp : R,
    delta p "call" = Ok dc /\ delta p "put" = Ok dp
    /\ theta p "call" = Ok tc /\ theta p "put" = Ok tp
    /\ rho p "call" = Ok rc /\ rho p "put" = Ok rp
    /\ dc - dp = exp (- (p.(q) * p.(T)))
    /\ rc - rp = p.(K) * p.(T) * exp (- (p.(r) * p.(T)))
    /\ tc - tp = p.(q) * p.(S) * exp (- (p.(q) * p.(T)))
                 - p.(r) * p.(K) * exp (- (p.(r) * p.(T))).
Proof.
  intros Hp.
  exists (formulas.delta_call p.(S) p.(K) p.(r) p.(q) p.(sigma) p.(T)),
         (formulas.delta_put p.(S) p.(K) p.(r) p.(q) p.(sigma) p.(T)),
         (formulas.theta_call p.(S) p.(K) p.(r) p.(q) p.(sigma) p.(T)),
         (formulas.theta_put p.(S) p.(K) p.(r) p.(q) p.(sigma) p.(T)),
         (formulas.rho_call p.(S) p.(K) p.(r) p.(q) p.(sigma) p.(T)),
         (formulas.rho_put p.(S) p.(K) p.(r) p.(q) p.(sigma) p.(T)).
  split; [now apply delta_call_valid |].
  split; [now apply delta_put_valid |].
  split; [now apply theta_call_valid |].
  split; [now apply theta_put_valid |].
  split; [now apply rho_call_valid |].
  split; [now apply rho_put_valid |].
  unfold formulas.delta_call, formulas.delta_put, formulas.theta_call,
    formulas.theta_put, formulas.rho_call, formulas.rho_put.
  rewrite !N_symmetric. repeat split; ring.
Qed.

Lemma greeks_parity_witness :
  valid example_params
  /\ exists dc dp tc tp rc rp : R,
       delta example_params "call" = Ok dc /\ delta example_params "put" = Ok dp
       /\ theta example_params "call" = Ok tc /\ theta example_params "put" = Ok tp
       /\ rho example_params "call" = Ok rc /\ rho example_params "put" = Ok rp
       /\ dc - dp = exp (- (0.02 * 1))
       /\ rc - rp = 100 * 1 * exp (- (0.05 * 1))
       /\ tc - tp = 0.02 * 100 * exp (- (0.02 * 1)) - 0.05 * 100 * exp (- (0.05 * 1)).
Proof.
  split; [exact valid_example_params |].
  exact (greeks_parity example_params valid_example_params).
Defined.

(** ** The analytical functions fail together *)

Lemma d1_returns (p : OptionParams) (v : R) :
  d1 p = Ok v -> p.(S) <> 0 /\ 0 < p.(T) /\ p.(sigma) <> 0.
Proof.
  unfold d1, py_div, py_log, py_sqrt.
  destruct (Req_dec_T p.(K) 0) as [| HK]; cbn [bind]; [discriminate |].
  destruct (Rlt_dec 0 (p.(S) / p.(K))) as [Hx |]; cbn [bind]; [| discriminate].
  destruct (Rle_dec 0 p.(T)) as [HT |]; cbn [bind]; [| discriminate].
  destruct (Req_dec_T (p.(sigma) * sqrt p.(T)) 0) as [| Hden]; [discriminate |].
  intros _. repeat split.
  - intros HS. rewrite HS in Hx. unfold Rdiv in Hx. lra.
  - destruct HT as [HT | HT]; [exact HT |].
    exfalso. apply Hden. rewrite <- HT, sqrt_0. ring.
  - intros Hs. apply Hden. rewrite Hs. ring.
Qed.

(** X5. For every parameter set and every kind, the price and the five
    Greeks either all return a value or all raise the same exception, the
    one that [d1] raises, which is [ValueError] or [ZeroDivisionError]. *)
Theorem analytic_functions_fail_together (p : OptionParams) (kind : string) :
  (succeeds (d1 p) /\ Forall succeeds (analytic_ops p kind))
  \/ (exists e : exn,
        (e = ValueError \/ e = ZeroDivisionError)
        /\ d1 p = Raise e
        /\ Forall (eq (Raise e)) (analytic_ops p kind)).
Proof.
  destruct (d1 p) as [v | e] eqn:Hd1.
  - left. assert (Hsucc : succeeds (d1 p)) by (now exists v).
    rewrite <- Hd1. split; [exact Hsucc |].
    destruct (d1_returns p v Hd1) as (HS & HT & Hsig).
    now apply ops_succeed.
  - right. exists e. split; [now apply (d1_raises p) |].
    split; [reflexivity |]. now apply ops_raise.
Qed.

(** ** Change of unit and exchange of spot and strike *)

Lemma d1_scale (lam : R) (p : OptionParams) :
  0 < lam -> d1 (scale_spot_strike lam p) = d1 p.
Proof.
  intros Hlam. unfold d1, scale_spot_strike. cbn [S K r q sigma T].
  destruct (Req_dec_T p.(K) 0) as [HK | HK].
  - rewrite HK, Rmult_0_r. now rewrite !py_div_zero.
  - rewrite (py_div_ok (lam * p.(S)) (lam * p.(K)))
      by (apply Rmult_integral_contrapositive_currified; lra).
    rewrite (py_div_ok p.(S) p.(K)) by assumption.
    replace (lam * p.(S) / (lam * p.(K))) with (p.(S) / p.(K)) by (field; lra).
    reflexivity.
Qed.

(** X6. The analytical functions are homogeneous in spot and strike: when
    both are multiplied by [lam > 0], the price is multiplied by [lam],
    delta is unchanged and gamma is divided by [lam]; an exception is
    raised after the change of unit exactly when it was raised before. *)
Theorem prices_scale_with_the_unit (lam : R) (p : OptionParams) (kind : string) :
  0 < lam ->
  black_scholes_price (scale_spot_strike lam p) kind
  = result_map (fun v => lam * v) (black_scholes_price p kind)
  /\ delta (scale_spot_strike lam p) kind = delta p kind
  /\ gamma (scale_spot_strike lam p) = result_map (fun v => v / lam) (gamma p).
Proof.
  intros Hlam.
  unfold black_scholes_price, call_price, put_price, delta, gamma.
  rewrite d1_scale by assumption.
  destruct (d1 p) as [d1v | e]; cbn [bind result_map].
  2:{ now destruct (kind =? "call")%string. }
  change (d2 (scale_spot_strike lam p) (Some d1v)) with (d2 p (Some d1v)).
  cbn [scale_spot_strike S K r q sigma T].
  split; [| split].
  - destruct (kind =? "call")%string;
      destruct (d2 p (Some d1v)) as [d2v | e]; cbn [bind result_map];
      try reflexivity; f_equal; ring.
  - reflexivity.
  - destruct (py_sqrt p.(T)) as [s | e]; cbn [bind result_map]; [| reflexivity].
    destruct (Req_dec_T (p.(S) * p.(sigma) * s) 0) as [Hz | Hz].
    + replace (lam * p.(S) * p.(sigma) * s) with 0
        by (rewrite !Rmult_assoc, <- (Rmult_assoc p.(S)), Hz; ring).
      rewrite Hz. now rewrite !py_div_zero.
    + rewrite !py_div_ok;
        try (rewrite !Rmult_assoc, <- (Rmult_assoc p.(S));
             apply Rmult_integral_contrapositive_currified; lra);
        try assumption.
      cbn [result_map]. f_equal.
      assert (HS : p.(S) <> 0) by (intros H; apply Hz; rewrite H; ring).
      assert (Hsig : p.(sigma) <> 0) by (intros H; apply Hz; rewrite H; ring).
      assert (Hs : s <> 0) by (intros H; apply Hz; rewrite H; ring).
      field. repeat split; lra.
Qed.

Lemma prices_scale_with_the_unit_witness :
  0 < 2
  /\ black_scholes_price (scale_spot_strike 2 example_params) "call"
     = result_map (fun v => 2 * v) (black_scholes_price example_params "call").
Proof.
  split; [lra |].
  apply (prices_scale_with_the_unit 2 example_params "call"). lra.
Defined.

Lemma valid_exchange (p : OptionParams) : valid p -> valid (exchange p).
Proof. intros (HS & HK & Hsig & HT). repeat split; assumption. Qed.

Lemma closed_form_exchange (S K r q sigma T : R) :
  0 < S -> 0 < K -> 0 < sigma -> 0 < T ->
  formulas.d1_closed K S q r sigma T = - formulas.d2_closed S K r q sigma T
  /\ formulas.d2_closed K S q r sigma T = - formulas.d1_closed S K r q sigma T.
Proof.
  intros HS HK Hsig HT.
  assert (Hs : 0 < sqrt T) by now apply sqrt_lt_R0.
  assert (Hss : sqrt T * sqrt T = T) by (apply sqrt_sqrt; lra).
  assert (Hln : ln (K / S) = - ln (S / K)).
  { replace (K / S) with (/ (S / K)) by (field; lra).
    apply ln_Rinv. now apply Rdiv_lt_0_compat. }
  assert (H1 : formulas.d1_closed K S q r sigma T
               = - formulas.d2_closed S K r q sigma T).
  { unfold formulas.d2_closed, formulas.d1_closed. rewrite Hln.
    apply (Rmult_eq_reg_r (sigma * sqrt T)); [| nra].
    field_simplify; [| lra | lra].
    assert (Hsq : sqrt T ^ 2 = T) by (simpl; now rewrite Rmult_1_r).
    rewrite Hsq. field. }
  split; [exact H1 |].
  unfold formulas.d2_closed at 1. rewrite H1.
  unfold formulas.d2_closed. ring.
Qed.

(** X7. On valid parameters a call is a put seen from the other side: the
    call price is the put price of the contract with spot and strike
    exchanged and the two rates exchanged, and conversely. *)
Theorem call_is_put_of_exchanged_contract (p : OptionParams) :
  valid p ->
  call_price p = put_price (exchange p)
  /\ put_price p = call_price (exchange p).
Proof.
  intros Hp. pose proof (valid_exchange p Hp) as Hp'.
  pose proof Hp as (HS & HK & Hsig & HT).
  rewrite (call_price_valid p Hp), (put_price_valid p Hp).
  rewrite (call_price_valid _ Hp'), (put_price_valid _ Hp').
  cbn [exchange S K r q sigma T].
  unfold formulas.callPrice, formulas.putPrice, formulas.discS, formulas.discK.
  destruct (closed_form_exchange p.(S) p.(K) p.(r) p.(q) p.(sigma) p.(T))
    as [H1 H2]; try assumption.
  rewrite H1, H2, !Ropp_involutive. split; f_equal; ring.
Qed.

Lemma call_is_put_of_exchanged_contract_witness :
  valid example_params
  /\ call_price example_params = put_price (exchange example_params).
Proof.
  split; [exact valid_example_params |].
  apply (call_is_put_of_exchanged_contract example_params valid_example_params).
Defined.

(** ** The simulated paths *)

Lemma firstn_seq_le (n m start : nat) :
  (n <= m)%nat -> firstn n (seq start m) = seq start n.
Proof.
  revert m start. induction n as [| n IH]; intros m start Hnm.
  - reflexivity.
  - destruct m as [| m]; [lia |]. cbn [seq firstn].
    f_equal. apply IH. lia.
Qed.

(** X8. With a seed that NumPy accepts, a sample count that is not
    negative and a maturity that is not negative, [simulate_paths] returns
    exactly [n_sims] prices, and all of them are positive when the spot
    is. *)
Theorem simulate_paths_positive_prices (gauss : origin -> nat -> R)
    (p : OptionParams) (n_sims seed : Z) (g : rng_state) :
  (0 <= seed < 2 ^ 32)%Z -> (0 <= n_sims)%Z -> 0 <= p.(T) -> 0 < p.(S) ->
  exists ST : list R,
    fst (simulate_paths gauss p n_sims seed g) = Ok ST
    /\ List.length ST = Z.to_nat n_sims
    /\ Forall (fun s => 0 < s) ST.
Proof.
  intros Hseed Hn HT HS.
  exists (terminal_prices gauss p n_sims seed).
  split; [now rewrite simulate_paths_run |].
  split; [apply terminal_prices_length |].
  unfold terminal_prices. apply Forall_map, Forall_forall. intros i _.
  apply Rmult_lt_0_compat; [assumption | apply exp_pos].
Qed.

Lemma simulate_paths_positive_prices_witness :
  (0 <= 42 < 2 ^ 32)%Z /\ (0 <= 3)%Z /\ 0 <= T example_params
  /\ 0 < S example_params
  /\ exists ST : list R,
       fst (simulate_paths seed42_draws example_params 3 42 at_import) = Ok ST
       /\ List.length ST = Z.to_nat 3
       /\ Forall (fun s => 0 < s) ST.
Proof.
  assert (HT : 0 <= T example_params) by (cbn; lra).
  assert (HS : 0 < S example_params) by (cbn; lra).
  split; [lia |]. split; [lia |]. split; [exact HT |]. split; [exact HS |].
  apply (simulate_paths_positive_prices seed42_draws example_params 3 42 at_import);
    (lia || assumption).
Defined.

(** X9. With one seed, a shorter simulation is the beginning of a longer
    one: the [n] prices of [simulate_paths p n seed] are the first [n] of
    the [m] prices of [simulate_paths p m seed] when [n <= m]. *)
Theorem simulate_paths_prefix (gauss : origin -> nat -> R)
    (p : OptionParams) (n m seed : Z) (g g' : rng_state) :
  (0 <= seed < 2 ^ 32)%Z -> (0 <= n <= m)%Z -> 0 <= p.(T) ->
  exists STn STm : list R,
    fst (simulate_paths gauss p n seed g) = Ok STn
    /\ fst (simulate_paths gauss p m seed g') = Ok STm
    /\ STn = firstn (Z.to_nat n) STm.
Proof.
  intros Hseed Hnm HT.
  exists (terminal_prices gauss p n seed), (terminal_prices gauss p m seed).
  split; [rewrite simulate_paths_run by (assumption || lia); reflexivity |].
  split; [rewrite simulate_paths_run by (assumption || lia); reflexivity |].
  unfold terminal_prices. rewrite firstn_map, firstn_seq_le by lia.
  reflexivity.
Qed.

Lemma simulate_paths_prefix_witness :
  (0 <= 42 < 2 ^ 32)%Z /\ (0 <= 100 <= 500)%Z /\ 0 <= T example_params
  /\ exists STn STm : list R,
       fst (simulate_paths seed42_draws example_params 100 42 at_import) = Ok STn
       /\ fst (simulate_paths seed42_draws example_params 500 42 at_import) = Ok STm
       /\ STn = firstn (Z.to_nat 100) STm.
Proof.
  assert (HT : 0 <= T example_params) by (cbn; lra).
  split; [lia |]. split; [lia |]. split; [exact HT |].
  apply (simulate_paths_prefix seed42_draws example_params 100 500 42
           at_import at_import); (lia || assumption).
Defined.

(** X10. What a failed call of [simulate_paths] leaves behind: a refused
    seed leaves the process-wide generator as it was; a negative sample
    count is refused after the generator was reseeded; a negative maturity
    is refused after the generator was reseeded and the deviates drawn. *)
Theorem simulate_paths_failures (gauss : origin -> nat -> R)
    (p : OptionParams) (n_sims seed : Z) (g : rng_state) :
  (~ (0 <= seed < 2 ^ 32)%Z ->
   simulate_paths gauss p n_sims seed g = (Raise ValueError, g))
  /\ ((0 <= seed < 2 ^ 32)%Z -> (n_sims < 0)%Z ->
      simulate_paths gauss p n_sims seed g
      = (Raise ValueError, {| rng_origin := Seeded seed; rng_drawn := 0 |}))
  /\ ((0 <= seed < 2 ^ 32)%Z -> (0 <= n_sims)%Z -> p.(T) < 0 ->
      simulate_paths gauss p n_sims seed g
      = (Raise ValueError,
         {| rng_origin := Seeded seed; rng_drawn := Z.to_nat n_sims |})).
Proof.
  split; [| split].
  - apply simulate_paths_bad_seed.
  - apply simulate_paths_negative.
  - apply simulate_paths_negative_T.
Qed.

(** ** The Monte Carlo estimate *)

Lemma np_sum_lower (lo : R) (a : list R) :
  Forall (fun x => lo <= x) a -> INR (List.length a) * lo <= np_sum a.
Proof.
  induction 1 as [| x a Hx Ha IH].
  - cbn. lra.
  - change (np_sum (x :: a)) with (x + np_sum a).
    change (List.length (x :: a)) with (Datatypes.S (List.length a)).
    rewrite S_INR. lra.
Qed.

Lemma np_sum_upper (hi : R) (a : list R) :
  Forall (fun x => x <= hi) a -> np_sum a <= INR (List.length a) * hi.
Proof.
  induction 1 as [| x a Hx Ha IH].
  - cbn. lra.
  - change (np_sum (x :: a)) with (x + np_sum a).
    change (List.length (x :: a)) with (Datatypes.S (List.length a)).
    rewrite S_INR. lra.
Qed.

Lemma length_pos (a : list R) : a <> [] -> 0 < INR (List.length a).
Proof.
  intros Ha. destruct a; [congruence |].
  apply lt_0_INR. cbn. lia.
Qed.

Lemma mean_lower (lo : R) (a : list R) :
  a <> [] -> Forall (fun x => lo <= x) a -> lo <= mean a.
Proof.
  intros Ha Hlo. pose proof (length_pos a Ha) as Hn.
  pose proof (np_sum_lower lo a Hlo) as Hsum.
  unfold mean. apply (Rmult_le_reg_r (INR (List.length a))); [assumption |].
  unfold Rdiv. rewrite Rmult_assoc, Rinv_l by lra. lra.
Qed.

Lemma mean_upper (hi : R) (a : list R) :
  a <> [] -> Forall (fun x => x <= hi) a -> mean a <= hi.
Proof.
  intros Ha Hhi. pose proof (length_pos a Ha) as Hn.
  pose proof (np_sum_upper hi a Hhi) as Hsum.
  unfold mean. apply (Rmult_le_reg_r (INR (List.length a))); [assumption |].
  unfold Rdiv. rewrite Rmult_assoc, Rinv_l by lra. lra.
Qed.

(** Samples that are all equal have that value for mean and no
    dispersion. *)
Lemma constant_sample (d : R) (a : list R) :
  a <> [] -> Forall (eq d) a -> mean a = d /\ populationStdDev a = 0.
Proof.
  intros Ha Hd. pose proof (length_pos a Ha) as Hn.
  assert (Hmean : mean a = d).
  { apply Rle_antisym.
    - apply mean_upper; [assumption |].
      eapply Forall_impl; [| exact Hd]. cbn. intros x <-. lra.
    - apply mean_lower; [assumption |].
      eapply Forall_impl; [| exact Hd]. cbn. intros x <-. lra. }
  split; [exact Hmean |].
  unfold populationStdDev, sum_sq_dev. rewrite Hmean.
  assert (Hzero : np_sum (map (fun x => (x - d) * (x - d)) a) = 0).
  { clear Ha Hn Hmean. induction Hd as [| x a Hx Ha IH].
    - reflexivity.
    - cbn [map]. change (np_sum (?y :: ?l)) with (y + np_sum l).
      rewrite IH, <- Hx. ring. }
  rewrite Hzero. unfold Rdiv. rewrite Rmult_0_l. apply sqrt_0.
Qed.

Lemma terminal_prices_nonempty (gauss : origin -> nat -> R) (p : OptionParams)
    (kind : string) (n_sims seed : Z) :
  (0 < n_sims)%Z -> discounted p kind (terminal_prices gauss p n_sims seed) <> [].
Proof.
  intros Hn Hnil. apply (f_equal (@List.length R)) in Hnil.
  rewrite discounted_length, terminal_prices_length in Hnil.
  cbn in Hnil. lia.
Qed.

Lemma discounted_nonneg (p : OptionParams) (kind : string) (ST : list R) :
  Forall (fun x => 0 <= x) (discounted p kind ST).
Proof.
  unfold discounted. apply Forall_map, Forall_forall. intros s _.
  apply Rmult_le_pos; [apply Rlt_le, exp_pos |].
  destruct (kind =? "call")%string; apply Rmax_r.
Qed.

(** X11. With no sample, [monte_carlo_price] raises nothing and returns
    [nan] for the price and for the standard error. *)
Theorem monte_carlo_price_no_sample (gauss : origin -> nat -> R)
    (p : OptionParams) (kind : string) (seed : Z) (g : rng_state) :
  (0 <= seed < 2 ^ 32)%Z -> 0 <= p.(T) ->
  fst (monte_carlo_price gauss p kind 0 seed g) = Ok (NaN, NaN).
Proof.
  intros Hseed HT.
  rewrite monte_carlo_price_run by (assumption || lia).
  reflexivity.
Qed.

Lemma monte_carlo_price_no_sample_witness :
  (0 <= 42 < 2 ^ 32)%Z /\ 0 <= T example_params
  /\ fst (monte_carlo_price seed42_draws example_params "call" 0 42 at_import)
     = Ok (NaN, NaN).
Proof.
  assert (HT : 0 <= T example_params) by (cbn; lra).
  split; [lia |]. split; [exact HT |].
  apply (monte_carlo_price_no_sample seed42_draws example_params "call" 42 at_import);
    (lia || assumption).
Defined.

(** X12. With one sample, the price is the discounted payoff of that
    sample and the standard error is zero. *)
Theorem monte_carlo_price_one_sample (gauss : origin -> nat -> R)
    (p : OptionParams) (kind : string) (seed : Z) (g : rng_state) :
  (0 <= seed < 2 ^ 32)%Z -> 0 <= p.(T) ->
  exists d : R,
    discounted p kind (terminal_prices gauss p 1 seed) = [d]
    /\ fst (monte_carlo_price gauss p kind 1 seed g) = Ok (Fin d, Fin 0).
Proof.
  intros Hseed HT.
  rewrite monte_carlo_price_run by (assumption || lia). cbn [fst].
  rewrite mc_value_positive by lia.
  set (a := discounted p kind (terminal_prices gauss p 1 seed)).
  assert (Ha : exists d, a = [d]) by (eexists; reflexivity).
  destruct Ha as [d Ha]. exists d. split; [exact Ha |].
  destruct (constant_sample d a) as [Hmean Hstd].
  - rewrite Ha. discriminate.
  - rewrite Ha. now constructor.
  - rewrite Hmean, Hstd. unfold Rdiv. now rewrite Rmult_0_l.
Qed.

Lemma monte_carlo_price_one_sample_witness :
  (0 <= 42 < 2 ^ 32)%Z /\ 0 <= T example_params
  /\ exists d : R,
       discounted example_params "call"
         (terminal_prices seed42_draws example_params 1 42) = [d]
       /\ fst (monte_carlo_price seed42_draws example_params "call" 1 42 at_import)
          = Ok (Fin d, Fin 0).
Proof.
  assert (HT : 0 <= T example_params) by (cbn; lra).
  split; [lia |]. split; [exact HT |].
  apply (monte_carlo_price_one_sample seed42_draws example_params "call" 42 at_import);
    (lia || assumption).
Defined.

(** X13. For every parameter set with a maturity that is not negative,
    every kind, every positive sample count and every seed that NumPy
    accepts, the Monte Carlo price and its standard error are real numbers
    that are not negative. *)
Theorem monte_carlo_price_nonnegative (gauss : origin -> nat -> R)
    (p : OptionParams) (kind : string) (n_sims seed : Z) (g : rng_state) :
  (0 <= seed < 2 ^ 32)%Z -> (0 < n_sims)%Z -> 0 <= p.(T) ->
  exists price stderr : R,
    fst (monte_carlo_price gauss p kind n_sims seed g) = Ok (Fin price, Fin stderr)
    /\ 0 <= price /\ 0 <= stderr.
Proof.
  intros Hseed Hn HT.
  rewrite monte_carlo_price_run by (assumption || lia). cbn [fst].
  rewrite mc_value_positive by assumption.
  eexists. eexists. split; [reflexivity |]. split.
  - apply mean_lower; [now apply terminal_prices_nonempty |].
    apply discounted_nonneg.
  - apply Rmult_le_pos; [apply sqrt_pos |].
    apply Rlt_le, Rinv_0_lt_compat. now apply sqrt_count_pos.
Qed.

Lemma monte_carlo_price_nonnegative_witness :
  (0 <= 42 < 2 ^ 32)%Z /\ (0 < 100000)%Z /\ 0 <= T example_params
  /\ exists price stderr : R,
       fst (monte_carlo_price seed42_draws example_params "put" 100000 42 at_import)
       = Ok (Fin price, Fin stderr)
       /\ 0 <= price /\ 0 <= stderr.
Proof.
  assert (HT : 0 <= T example_params) by (cbn; lra).
  split; [lia |]. split; [lia |]. split; [exact HT |].
  apply (monte_carlo_price_nonnegative seed42_draws example_params "put"
           100000 42 at_import); (lia || assumption).
Defined.

Lemma payoff_difference (s k : R) : Rmax (s - k) 0 - Rmax (k - s) 0 = s - k.
Proof.
  unfold Rmax.
  destruct (Rle_dec (s - k) 0); destruct (Rle_dec (k - s) 0); lra.
Qed.

Lemma discounted_sum_difference (p : OptionParams) (ST : list R) :
  np_sum (discounted p "call" ST) - np_sum (discounted p "put" ST)
  = exp (- (p.(r) * p.(T))) * (np_sum ST - INR (List.length ST) * p.(K)).
Proof.
  rewrite discounted_call, (discounted_not_call p "put" ST put_is_not_call).
  induction ST as [| s ST IH].
  - cbn. ring.
  - cbn [map]. change (np_sum (?y :: ?l)) with (y + np_sum l).
    change (List.length (s :: ST)) with (Datatypes.S (List.length ST)).
    rewrite S_INR.
    pose proof (payoff_difference s p.(K)) as Hpay.
    replace (Rmax (s - p.(K)) 0) with (s - p.(K) + Rmax (p.(K) - s) 0) by lra.
    lra.
Qed.

Lemma mean_discounted_difference (gauss : origin -> nat -> R)
    (p : OptionParams) (n_sims seed : Z) :
  (0 < n_sims)%Z ->
  mean (discounted p "call" (terminal_prices gauss p n_sims seed))
  - mean (discounted p "put" (terminal_prices gauss p n_sims seed))
  = exp (- (p.(r) * p.(T)))
    * (mean (terminal_prices gauss p n_sims seed) - p.(K)).
Proof.
  intros Hn.
  set (ST := terminal_prices gauss p n_sims seed).
  assert (Hlen : 0 < INR (List.length ST)).
  { unfold ST. rewrite terminal_prices_length. apply lt_0_INR. lia. }
  unfold mean. rewrite !discounted_length.
  pose proof (discounted_sum_difference p ST) as Hdiff.
  unfold Rdiv. rewrite <- Rmult_minus_distr_r, Hdiff.
  field. lra.
Qed.

(** X14. Put-call parity holds sample by sample: with the same sample
    count and seed, the Monte Carlo price of the call minus that of the put
    is the discounted difference between the mean simulated price and the
    strike. *)
Theorem monte_carlo_put_call_parity (gauss : origin -> nat -> R)
    (p : OptionParams) (n_sims seed : Z) (g g' : rng_state) :
  (0 <= seed < 2 ^ 32)%Z -> (0 < n_sims)%Z -> 0 <= p.(T) ->
  exists callPrice callErr putPrice putErr : R,
    fst (monte_carlo_price gauss p "call" n_sims seed g)
    = Ok (Fin callPrice, Fin callErr)
    /\ fst (monte_carlo_price gauss p "put" n_sims seed g')
       = Ok (Fin putPrice, Fin putErr)
    /\ callPrice - putPrice
       = exp (- (p.(r) * p.(T)))
         * (mean (terminal_prices gauss p n_sims seed) - p.(K)).
Proof.
  intros Hseed Hn HT.
  rewrite !monte_carlo_price_run by (assumption || lia). cbn [fst].
  rewrite !mc_value_positive by assumption.
  do 4 eexists. split; [reflexivity |]. split; [reflexivity |].
  now apply mean_discounted_difference.
Qed.

Lemma monte_carlo_put_call_parity_witness :
  (0 <= 42 < 2 ^ 32)%Z /\ (0 < 100000)%Z /\ 0 <= T example_params
  /\ exists callPrice callErr putPrice putErr : R,
       fst (monte_carlo_price seed42_draws example_params "call" 100000 42 at_import)
       = Ok (Fin callPrice, Fin callErr)
       /\ fst (monte_carlo_price seed42_draws example_params "put" 100000 42 at_import)
          = Ok (Fin putPrice, Fin putErr)
       /\ callPrice - putPrice
          = exp (- (0.05 * 1))
            * (mean (terminal_prices seed42_draws example_params 100000 42) - 100).
Proof.
  assert (HT : 0 <= T example_params) by (cbn; lra).
  split; [lia |]. split; [lia |]. split; [exact HT |].
  apply (monte_carlo_put_call_parity seed42_draws example_params 100000 42
           at_import at_import); (lia || assumption).
Defined.

(** X15. With a positive spot and a strike that is not negative, the Monte
    Carlo price of a put never exceeds the discounted strike, and that of a
    call never exceeds the discounted mean of the simulated prices. *)
Theorem monte_carlo_price_upper_bounds (gauss : origin -> nat -> R)
    (p : OptionParams) (n_sims seed : Z) (g : rng_state) :
  (0 <= seed < 2 ^ 32)%Z -> (0 < n_sims)%Z -> 0 <= p.(T) ->
  0 < p.(S) -> 0 <= p.(K) ->
  exists callPrice callErr putPrice putErr : R,
    fst (monte_carlo_price gauss p "call" n_sims seed g)
    = Ok (Fin callPrice, Fin callErr)
    /\ fst (monte_carlo_price gauss p "put" n_sims seed g)
       = Ok (Fin putPrice, Fin putErr)
    /\ putPrice <= exp (- (p.(r) * p.(T))) * p.(K)
    /\ callPrice
       <= exp (- (p.(r) * p.(T))) * mean (terminal_prices gauss p n_sims seed).
Proof.
  intros Hseed Hn HT HS HK.
  rewrite !monte_carlo_price_run by (assumption || lia). cbn [fst].
  rewrite !mc_value_positive by assumption.
  do 4 eexists. split; [reflexivity |]. split; [reflexivity |].
  pose proof (mean_discounted_difference gauss p n_sims seed Hn) as Hpar.
  set (pu := mean (discounted p "put" (terminal_prices gauss p n_sims seed))) in *.
  assert (Hput : pu <= exp (- (p.(r) * p.(T))) * p.(K)).
  { unfold pu.
    apply mean_upper; [now apply terminal_prices_nonempty |].
    rewrite (discounted_not_call p "put" _ put_is_not_call).
    unfold terminal_prices. rewrite map_map.
    apply Forall_map, Forall_forall. intros i _.
    pose proof (exp_pos (- (p.(r) * p.(T)))) as He.
    apply Rmult_le_compat_l; [lra |].
    apply Rmax_lub; [| assumption].
    match goal with
    | |- _ - S p * exp ?x <= _ => pose proof (exp_pos x) as Hx
    end.
    nra. }
  split; [exact Hput |]. lra.
Qed.

Lemma monte_carlo_price_upper_bounds_witness :
  (0 <= 42 < 2 ^ 32)%Z /\ (0 < 100000)%Z /\ 0 <= T example_params
  /\ 0 < S example_params /\ 0 <= K example_params
  /\ exists callPrice callErr putPrice putErr : R,
       fst (monte_carlo_price seed42_draws example_params "call" 100000 42 at_import)
       = Ok (Fin callPrice, Fin callErr)
       /\ fst (monte_carlo_price seed42_draws example_params "put" 100000 42 at_import)
          = Ok (Fin putPrice, Fin putErr)
       /\ putPrice <= exp (- (0.05 * 1)) * 100
       /\ callPrice
          <= exp (- (0.05 * 1))
             * mean (terminal_prices seed42_draws example_params 100000 42).
Proof.
  assert (HT : 0 <= T example_params) by (cbn; lra).
  assert (HS : 0 < S example_params) by (cbn; lra).
  assert (HK : 0 <= K example_params) by (cbn; lra).
  split; [lia |]. split; [lia |]. split; [exact HT |].
  split; [exact HS |]. split; [exact HK |].
  apply (monte_carlo_price_upper_bounds seed42_draws example_params 100000 42
           at_import); (lia || assumption).
Defined.

(** X16. With no volatility every simulated path ends at the forward
    price [S exp((r - q) T)]: the Monte Carlo price is the discounted payoff
    at that price and the standard error is zero. *)
Theorem monte_carlo_price_without_volatility (gauss : origin -> nat -> R)
    (p : OptionParams) (kind : string) (n_sims seed : Z) (g : rng_state) :
  (0 <= seed < 2 ^ 32)%Z -> (0 < n_sims)%Z -> 0 <= p.(T) -> p.(sigma) = 0 ->
  let forward := p.(S) * exp ((p.(r) - p.(q)) * p.(T)) in
  let payoff :=
    if (kind =? "call")%string
    then Rmax (forward - p.(K)) 0 else Rmax (p.(K) - forward) 0 in
  fst (monte_carlo_price gauss p kind n_sims seed g)
  = Ok (Fin (exp (- (p.(r) * p.(T))) * payoff), Fin 0).
Proof.
  intros Hseed Hn HT Hsig forward payoff.
  rewrite monte_carlo_price_run by (assumption || lia). cbn [fst].
  rewrite mc_value_positive by assumption.
  set (a := discounted p kind (terminal_prices gauss p n_sims seed)).
  destruct (constant_sample (exp (- (p.(r) * p.(T))) * payoff) a) as [Hmean Hstd].
  - now apply terminal_prices_nonempty.
  - unfold a, discounted, terminal_prices. rewrite map_map.
    apply Forall_map, Forall_forall. intros i _.
    rewrite Hsig, <- Ropp_mult_distr_l.
    replace ((p.(r) - p.(q) - 0 * 0 / 2) * p.(T) + 0 * sqrt p.(T) * gauss (Seeded seed) i)
      with ((p.(r) - p.(q)) * p.(T)) by lra.
    reflexivity.
  - rewrite Hmean, Hstd. unfold Rdiv. now rewrite Rmult_0_l.
Qed.

Lemma monte_carlo_price_without_volatility_witness :
  (0 <= 42 < 2 ^ 32)%Z /\ (0 < 100000)%Z /\ 0 <= T flat_params
  /\ sigma flat_params = 0
  /\ fst (monte_carlo_price seed42_draws flat_params "call" 100000 42 at_import)
     = Ok (Fin (exp (- (0.05 * 1))
                * Rmax (100 * exp ((0.05 - 0.02) * 1) - 100) 0),
           Fin 0).
Proof.
  assert (HT : 0 <= T flat_params) by (cbn; lra).
  split; [lia |]. split; [lia |]. split; [exact HT |]. split; [reflexivity |].
  apply (monte_carlo_price_without_volatility seed42_draws flat_params "call"
           100000 42 at_import); (lia || assumption || reflexivity).
Defined.

(** ** The convergence analysis, beyond its result *)

Section Convergence.

Variable gauss : origin -> nat -> R.

Lemma compare_loop_outcome (p : OptionParams) (kind : string) (n_sims_list : list Z) :
  forall (mc_prices mc_errors : list np_float) (g g' : rng_state),
    fst (compare_loop gauss p kind n_sims_list mc_prices mc_errors g)
    = fst (compare_loop gauss p kind n_sims_list mc_prices mc_errors g').
Proof.
  induction n_sims_list as [| n rest IH]; intros mc_prices mc_errors g g'.
  - reflexivity.
  - cbn [compare_loop]. unfold bindM.
    pose proof (monte_carlo_price_outcome gauss p kind n default_seed g g') as Hout.
    destruct (monte_carlo_price gauss p kind n default_seed g) as [[pe | e] g1];
      destruct (monte_carlo_price gauss p kind n default_seed g') as [[pe' | e'] g1'];
      cbn [fst] in Hout; try discriminate.
    + injection Hout as <-. apply IH.
    + injection Hout as <-. reflexivity.
Qed.

Lemma compare_loop_negative (p : OptionParams) (kind : string) (n_sims_list : list Z) :
  0 <= p.(T) -> Exists (fun n => n < 0)%Z n_sims_list ->
  forall (mc_prices mc_errors : list np_float) (g : rng_state),
    fst (compare_loop gauss p kind n_sims_list mc_prices mc_errors g)
    = Raise ValueError.
Proof.
  intros HT. induction n_sims_list as [| n rest IH]; intros Hneg mc_prices mc_errors g.
  - inversion Hneg.
  - cbn [compare_loop]. unfold bindM.
    destruct (Z_lt_dec n 0) as [Hn | Hn].
    + now rewrite monte_carlo_price_negative by (assumption || apply seed_ok_default).
    + rewrite monte_carlo_price_run by (assumption || apply seed_ok_default || lia).
      apply IH. inversion Hneg; [contradiction | assumption].
Qed.

Lemma compare_loop_state (p : OptionParams) (kind : string) (n_sims_list : list Z) :
  0 <= p.(T) -> Forall (fun n => 0 <= n)%Z n_sims_list -> n_sims_list <> [] ->
  forall (mc_prices mc_errors : list np_float) (g : rng_state),
    snd (compare_loop gauss p kind n_sims_list mc_prices mc_errors g)
    = after_call (last n_sims_list 0%Z) default_seed.
Proof.
  intros HT Hpos. induction Hpos as [| n rest Hn Hrest IH];
    intros Hne mc_prices mc_errors g; [congruence |].
  cbn [compare_loop]. unfold bindM.
  rewrite monte_carlo_price_run by (assumption || apply seed_ok_default).
  destruct rest as [| m rest].
  - reflexivity.
  - rewrite IH by discriminate. reflexivity.
Qed.

End Convergence.

(** X17. When [d1] raises, [compare_mc_vs_bs] raises the same exception
    before any simulation: the process-wide generator is left as it was,
    whatever the sample counts. *)
Theorem compare_mc_vs_bs_fails_before_simulating (gauss : origin -> nat -> R)
    (p : OptionParams) (kind : string) (n_sims_list : list Z) (e : exn)
    (g : rng_state) :
  d1 p = Raise e ->
  compare_mc_vs_bs gauss p kind n_sims_list g = (Raise e, g).
Proof.
  intros Hd1. apply compare_mc_vs_bs_raises_first.
  pose proof (ops_raise p kind e Hd1) as Hops.
  apply Forall_inv in Hops. now rewrite <- Hops.
Qed.

Lemma compare_mc_vs_bs_fails_before_simulating_witness :
  d1 flat_params = Raise ZeroDivisionError
  /\ compare_mc_vs_bs seed42_draws flat_params "call" [100; 500]%Z at_import
     = (Raise ZeroDivisionError, at_import).
Proof.
  assert (Hd1 : d1 flat_params = Raise ZeroDivisionError)
    by (apply d1_zero_denominator; cbn; lra).
  split; [exact Hd1 |].
  exact (compare_mc_vs_bs_fails_before_simulating seed42_draws flat_params "call"
           [100; 500]%Z ZeroDivisionError at_import Hd1).
Defined.

(** X18. On valid parameters, a negative sample count anywhere in the list
    makes [compare_mc_vs_bs] raise [ValueError]: the prices computed for
    the counts before it are lost. *)
Theorem compare_mc_vs_bs_negative_count (gauss : origin -> nat -> R)
    (p : OptionParams) (kind : string) (n_sims_list : list Z) (g : rng_state) :
  valid p -> Exists (fun n => n < 0)%Z n_sims_list ->
  fst (compare_mc_vs_bs gauss p kind n_sims_list g) = Raise ValueError.
Proof.
  intros Hp Hneg. pose proof Hp as (_ & _ & _ & HT).
  destruct (black_scholes_price_valid p kind Hp) as [bs Hbs].
  unfold compare_mc_vs_bs, bindM, lift. rewrite Hbs.
  assert (HT' : 0 <= p.(T)) by lra.
  pose proof (compare_loop_negative gauss p kind n_sims_list HT' Hneg [] [] g) as Hloop.
  destruct (compare_loop gauss p kind n_sims_list [] [] g) as [[arrays | e] g1];
    cbn [fst] in Hloop; [discriminate |].
  injection Hloop as ->. reflexivity.
Qed.

Lemma compare_mc_vs_bs_negative_count_witness :
  valid example_params /\ Exists (fun n => n < 0)%Z [100; -1; 500]%Z
  /\ fst (compare_mc_vs_bs seed42_draws example_params "call" [100; -1; 500]%Z
            at_import)
     = Raise ValueError.
Proof.
  assert (Hneg : Exists (fun n => n < 0)%Z [100; -1; 500]%Z)
    by (apply Exists_cons_tl, Exists_cons_hd; lia).
  split; [exact valid_example_params |]. split; [exact Hneg |].
  exact (compare_mc_vs_bs_negative_count seed42_draws example_params "call"
           [100; -1; 500]%Z at_import valid_example_params Hneg).
Defined.

(** X19. On valid parameters and sample counts that are not negative,
    [compare_mc_vs_bs] leaves the process-wide generator untouched when
    the list is empty, and otherwise seeded with 42 and advanced by the
    last sample count. *)
Theorem compare_mc_vs_bs_generator (gauss : origin -> nat -> R)
    (p : OptionParams) (kind : string) (n_sims_list : list Z) (g : rng_state) :
  valid p -> Forall (fun n => 0 <= n)%Z n_sims_list ->
  snd (compare_mc_vs_bs gauss p kind n_sims_list g)
  = match n_sims_list with
    | [] => g
    | _ :: _ =>
        {| rng_origin := Seeded 42;
           rng_drawn := Z.to_nat (last n_sims_list 0%Z) |}
    end.
Proof.
  intros Hp Hpos. pose proof Hp as (_ & _ & _ & HT).
  assert (HT' : 0 <= p.(T)) by lra.
  destruct (black_scholes_price_valid p kind Hp) as [bs Hbs].
  unfold compare_mc_vs_bs, bindM, lift, ret. rewrite Hbs.
  destruct n_sims_list as [| n rest]; [reflexivity |].
  pose proof (compare_loop_state gauss p kind (n :: rest) HT' Hpos
                ltac:(discriminate) [] [] g) as Hstate.
  pose proof (compare_loop_run gauss p kind (n :: rest) HT' Hpos [] [] g) as Hrun.
  destruct (compare_loop gauss p kind (n :: rest) [] [] g) as [[arrays | e] g1];
    cbn [fst snd] in Hstate, Hrun; [| discriminate].
  cbn [snd]. exact Hstate.
Qed.

Lemma compare_mc_vs_bs_generator_witness :
  valid example_params /\ Forall (fun n => 0 <= n)%Z [100; 500; 2000]%Z
  /\ snd (compare_mc_vs_bs seed42_draws example_params "call" [100; 500; 2000]%Z
            at_import)
     = {| rng_origin := Seeded 42; rng_drawn := Z.to_nat 2000 |}.
Proof.
  assert (Hpos : Forall (fun n => 0 <= n)%Z [100; 500; 2000]%Z)
    by (repeat constructor; lia).
  split; [exact valid_example_params |]. split; [exact Hpos |].
  exact (compare_mc_vs_bs_generator seed42_draws example_params "call"
           [100; 500; 2000]%Z at_import valid_example_params Hpos).
Defined.

(** X20. The outcome of [compare_mc_vs_bs], value or exception, does not
    depend on the state in which it finds the process-wide generator. *)
Theorem compare_mc_vs_bs_reproducible (gauss : origin -> nat -> R)
    (p : OptionParams) (kind : string) (n_sims_list : list Z) (g g' : rng_state) :
  fst (compare_mc_vs_bs gauss p kind n_sims_list g)
  = fst (compare_mc_vs_bs gauss p kind n_sims_list g').
Proof.
  unfold compare_mc_vs_bs, bindM, lift, ret.
  destruct (black_scholes_price p kind) as [bs | e]; [| reflexivity].
  pose proof (compare_loop_outcome gauss p kind n_sims_list [] [] g g') as Hout.
  destruct (compare_loop gauss p kind n_sims_list [] [] g) as [[arrays | e] g1];
    destruct (compare_loop gauss p kind n_sims_list [] [] g') as [[arrays' | e'] g1'];
    cbn [fst] in Hout; try discriminate.
  - injection Hout as <-. reflexivity.
  - injection Hout as <-. reflexivity.
Qed.

(** ** More on the analytical functions *)

(** X21. The price and its Greeks satisfy the Black-Scholes equation on
    valid parameters, for a call and for a put:
    [theta + (r - q) S delta + sigma^2 S^2 gamma / 2 = r price]. *)
Theorem black_scholes_equation (p : OptionParams) (kind : string) :
  valid p -> kind = "call"%string \/ kind = "put"%string ->
  exists price d g t : R,
    black_scholes_price p kind = Ok price
    /\ delta p kind = Ok d /\ gamma p = Ok g /\ theta p kind = Ok t
    /\ t + (p.(r) - p.(q)) * p.(S) * d
       + p.(sigma) * p.(sigma) * p.(S) * p.(S) * g / 2
       = p.(r) * price.
Proof.
  intros Hp Hkind. pose proof Hp as (HS & HK & Hsig & HT).
  pose proof (sqrt_T_pos p HT) as Hs.
  destruct Hkind as [-> | ->].
  - exists (formulas.callPrice p.(S) p.(K) p.(r) p.(q) p.(sigma) p.(T)),
           (formulas.delta_call p.(S) p.(K) p.(r) p.(q) p.(sigma) p.(T)),
           (formulas.gamma_closed p.(S) p.(K) p.(r) p.(q) p.(sigma) p.(T)),
           (formulas.theta_call p.(S) p.(K) p.(r) p.(q) p.(sigma) p.(T)).
    split; [exact (call_price_valid p Hp) |].
    split; [now apply delta_call_valid |].
    split; [now apply gamma_valid |].
    split; [now apply theta_call_valid |].
    unfold formulas.callPrice, formulas.delta_call, formulas.gamma_closed,
      formulas.theta_call, formulas.discS, formulas.discK.
    field. lra.
  - exists (formulas.putPrice p.(S) p.(K) p.(r) p.(q) p.(sigma) p.(T)),
           (formulas.delta_put p.(S) p.(K) p.(r) p.(q) p.(sigma) p.(T)),
           (formulas.gamma_closed p.(S) p.(K) p.(r) p.(q) p.(sigma) p.(T)),
           (formulas.theta_put p.(S) p.(K) p.(r) p.(q) p.(sigma) p.(T)).
    split; [exact (put_price_valid p Hp) |].
    split; [now apply delta_put_valid |].
    split; [now apply gamma_valid |].
    split; [now apply theta_put_valid |].
    unfold formulas.putPrice, formulas.delta_put, formulas.gamma_closed,
      formulas.theta_put, formulas.discS, formulas.discK.
    field. lra.
Qed.

Lemma black_scholes_equation_witness :
  valid example_params
  /\ ("call"%string = "call"%string \/ "call"%string = "put"%string)
  /\ exists price d g t : R,
       black_scholes_price example_params "call" = Ok price
       /\ delta example_params "call" = Ok d /\ gamma example_params = Ok g
       /\ theta example_params "call" = Ok t
       /\ t + (0.05 - 0.02) * 100 * d + 0.2 * 0.2 * 100 * 100 * g / 2
          = 0.05 * price.
Proof.
  split; [exact valid_example_params |].
  split; [left; reflexivity |].
  exact (black_scholes_equation example_params "call" valid_example_params
           (or_introl eq_refl)).
Defined.

(** X22. [d2] called without a value for [d1] returns [d1 - sigma sqrt T]
    when [d1] returns and raises what [d1] raises otherwise: its own square
    root never fails after [d1].  Called with a value, it only looks at the
    maturity: [ValueError] when [T < 0], the difference otherwise. *)
Theorem d2_outcomes (p : OptionParams) (d1_val : R) :
  d2 p None = result_map (fun v => v - p.(sigma) * sqrt p.(T)) (d1 p)
  /\ (p.(T) < 0 -> d2 p (Some d1_val) = Raise ValueError)
  /\ (0 <= p.(T) -> d2 p (Some d1_val) = Ok (d1_val - p.(sigma) * sqrt p.(T))).
Proof.
  split; [| split].
  - unfold d2. destruct (d1 p) as [v | e] eqn:Hd1; cbn [bind result_map].
    + destruct (d1_returns p v Hd1) as (_ & HT & _).
      now rewrite py_sqrt_ok by lra.
    + reflexivity.
  - intros HT. unfold d2. cbn [bind]. now rewrite py_sqrt_err.
  - intros HT. now apply d2_valid.
Qed.

(** X23. A negative volatility is not refused: when a valid parameter set
    is given the volatility [- sigma] instead of [sigma], [call_price]
    returns minus the put price of the valid set, and [put_price] returns
    minus its call price. *)
Theorem negative_volatility_prices (p : OptionParams) :
  valid p ->
  call_price (with_sigma (- p.(sigma)) p)
  = Ok (- formulas.putPrice p.(S) p.(K) p.(r) p.(q) p.(sigma) p.(T))
  /\ put_price (with_sigma (- p.(sigma)) p)
     = Ok (- formulas.callPrice p.(S) p.(K) p.(r) p.(q) p.(sigma) p.(T)).
Proof.
  intros (HS & HK & Hsig & HT).
  pose proof (sqrt_lt_R0 p.(T) HT) as Hs.
  set (p' := with_sigma (- p.(sigma)) p).
  assert (Hd1 : d1 p' = Ok (- formulas.d1_closed p.(S) p.(K) p.(r) p.(q) p.(sigma) p.(T))).
  { rewrite (d1_defined p'); cbn [p' with_sigma S K r q sigma T]; try lra.
    - f_equal. unfold formulas.d1_closed. field. lra.
    - now apply Rdiv_lt_0_compat. }
  unfold call_price, put_price. rewrite Hd1. cbn [bind].
  rewrite (d2_valid p') by (cbn [p' with_sigma T]; lra). cbn [bind].
  cbn [p' with_sigma S K r q sigma T].
  rewrite !std_norm_cdf_N.
  unfold formulas.putPrice, formulas.callPrice, formulas.discS, formulas.discK,
    formulas.d2_closed.
  replace (- formulas.d1_closed p.(S) p.(K) p.(r) p.(q) p.(sigma) p.(T)
           - - p.(sigma) * sqrt p.(T))
    with (- (formulas.d1_closed p.(S) p.(K) p.(r) p.(q) p.(sigma) p.(T)
             - p.(sigma) * sqrt p.(T))) by ring.
  rewrite !Ropp_involutive, <- !Ropp_mult_distr_l.
  split; f_equal; ring.
Qed.

Lemma negative_volatility_prices_witness :
  valid example_params
  /\ call_price (with_sigma (- sigma example_params) example_params)
     = Ok (- formulas.putPrice 100 100 0.05 0.02 0.2 1).
Proof.
  split; [exact valid_example_params |].
  apply (negative_volatility_prices example_params valid_example_params).
Defined.

(** X24. [disc] is a positive discount factor that compounds over
    maturities: it is one at maturity zero and the factor over [T1 + T2] is
    the product of the factors over [T1] and over [T2]; it is at most one
    when the rate and the maturity are not negative. *)
Theorem disc_compounds (rate T1 T2 : R) :
  0 < disc rate T1
  /\ disc rate 0 = 1
  /\ disc rate (T1 + T2) = disc rate T1 * disc rate T2
  /\ (0 <= rate -> 0 <= T1 -> disc rate T1 <= 1).
Proof.
  unfold disc. split; [apply exp_pos |]. split; [| split].
  - rewrite Rmult_0_r. apply exp_0.
  - rewrite <- exp_plus. f_equal. ring.
  - intros Hr HT.
    assert (Hx : - rate * T1 <= 0) by nra.
    destruct Hx as [Hx | Hx].
    + rewrite <- exp_0. now apply Rlt_le, exp_increasing.
    + rewrite Hx, exp_0. lra.
Qed.
